(** * uniai-client: page-range parsing, page rendering schedule and the
    NDJSON streaming client

    A shallow embedding of
    - [internal/cli]: [ParsePageRange] and [RenderPdfPage],
    - [cmd/uniai.go]: the page loop of [uniaiCmd] (sequential and parallel),
    - [pkg/uniai]: the client ([NewClient], [do], [stream], [Generate],
      [Chat], [Heartbeat], [Version]), with the line scanner [stream]
      reads the body through,
    together with the properties the specification states about them.

    Conventions.  Go's [int] is the 64-bit two's-complement integer, kept as
    a [Z] with the wrap-around of [i++] written out.  Go strings are byte
    strings, kept as [string].  A slice is a [list]; only its length matters
    here, its capacity is never observed.  A Go call either returns, panics
    or runs for ever; loops whose exit depends on integer arithmetic take a
    fuel argument. *)

From Stdlib Require Import ZArith Lia Ascii String List.
From stdpp Require Import base decidable option list list_numbers strings pretty gmap.

Local Open Scope string_scope.
Local Open Scope list_scope.
Local Open Scope Z_scope.

(** ** Outcomes of a Go call *)

Inductive panic : Type :=
| IndexOutOfRange (index : Z) (len : nat)
| MakeSliceLenOutOfRange
| NegativeWaitGroupCounter.

Inductive outcome (A : Type) : Type :=
| Returned (a : A)
| Panicked (p : panic)
| OutOfFuel.
Arguments Returned {A} a.
Arguments Panicked {A} p.
Arguments OutOfFuel {A}.

(** Go [error] values: [errors.New] and [fmt.Errorf] without [%w] give a
    text, [fmt.Errorf] with [%w] wraps an inner error behind a prefix, and
    [StatusError] is the client's own error type. *)
Inductive error : Type :=
| errorString (text : string)
| wrapError (prefix : string) (inner : error)
| StatusError (StatusCode : Z) (Status : string) (ErrorMessage : string).

#[global] Instance outcome_ret : MRet outcome := fun A a => Returned a.

#[global] Instance outcome_bind : MBind outcome := fun A B k m =>
  match m with
  | Returned a => k a
  | Panicked p => Panicked p
  | OutOfFuel => OutOfFuel
  end.

(** ** The parts of Go's standard library the code calls *)

Module strconv.

(** [strconv.IntSize] on the 64-bit targets. *)
Definition intSize : Z := 64.
Definition maxInt : Z := 2 ^ (intSize - 1) - 1.
Definition minInt : Z := - 2 ^ (intSize - 1).

(** Two's-complement wrap-around of a mathematical integer into [int]. *)
Definition wrap (z : Z) : Z :=
  (z - minInt) mod 2 ^ intSize + minInt.

Definition isDigit (c : ascii) : bool :=
  (48 <=? nat_of_ascii c)%nat && (nat_of_ascii c <=? 57)%nat.

Definition digitVal (c : ascii) : Z := Z.of_nat (nat_of_ascii c) - 48.

(** The digit loop of [ParseUint] in base 10: every byte must be a digit. *)
Fixpoint parseDigits (s : string) (acc : Z) : option Z :=
  match s with
  | EmptyString => Some acc
  | String c rest =>
      if isDigit c then parseDigits rest (10 * acc + digitVal c) else None
  end.

(** [strconv.Atoi]: an optional sign, at least one digit, nothing else,
    and a value that fits [int].  [None] stands for the returned error
    (syntax or range), whose text [ParsePageRange] never reads. *)
Definition Atoi (s : string) : option Z :=
  match s with
  | EmptyString => None
  | String c rest =>
      let neg := bool_decide (c = "-"%char) in
      let digits := if bool_decide (c = "-"%char) || bool_decide (c = "+"%char)
                    then rest else s in
      match digits with
      | EmptyString => None
      | _ =>
          match parseDigits digits 0 with
          | None => None
          | Some un =>
              if neg then (if un <=? - minInt then Some (- un) else None)
              else (if un <=? maxInt then Some un else None)
          end
      end
  end.

(** The value Go leaves in the integer result: 0 beside an error. *)
Definition AtoiValue (s : string) : Z := default 0 (Atoi s).

End strconv.

Module strings.

(** [strings.Contains(s, sep)] for a one-byte [sep]. *)
Fixpoint Contains (s : string) (sep : ascii) : bool :=
  match s with
  | EmptyString => false
  | String c rest => bool_decide (c = sep) || Contains rest sep
  end.

(** [strings.Split(s, sep)] for a one-byte [sep]: the substrings between
    the separators, one more than there are separators. *)
Fixpoint Split (s : string) (sep : ascii) : list string :=
  match s with
  | EmptyString => [EmptyString]
  | String c rest =>
      if bool_decide (c = sep) then EmptyString :: Split rest sep
      else match Split rest sep with
           | h :: t => String c h :: t
           | [] => [String c EmptyString]
           end
  end.

(** [strings.Join(elems, sep)] *)
Fixpoint Join (elems : list string) (sep : string) : string :=
  match elems with
  | [] => EmptyString
  | [e] => e
  | e :: rest => e +:+ sep +:+ Join rest sep
  end.

Fixpoint HasSuffix (s suffix : string) : bool :=
  bool_decide (s = suffix) ||
  match s with
  | EmptyString => false
  | String _ rest => HasSuffix rest suffix
  end.

(** [strings.TrimSuffix(s, suffix)] *)
Definition TrimSuffix (s suffix : string) : string :=
  if HasSuffix s suffix
  then String.substring 0 (String.length s - String.length suffix) s
  else s.

End strings.

(** [bufio.Scanner] with the split function [bufio.ScanLines], as [stream]
    sets it up. *)
Module bufio.

Definition LF : ascii := "010"%char.
Definition CR : ascii := "013"%char.

(** [bufio.ErrTooLong] *)
Definition ErrTooLong : error := errorString "bufio.Scanner: token too long".

(** [dropCR]: a line without its final carriage return. *)
Fixpoint dropCR (data : string) : string :=
  match data with
  | EmptyString => EmptyString
  | String c rest =>
      match rest with
      | EmptyString => if decide (c = CR) then EmptyString else data
      | _ => String c (dropCR rest)
      end
  end.

(** The calls of [Scan] until it returns false, on a scanner whose buffer
    holds [max] bytes and cannot grow ([scanner.Buffer(buf, max)] with
    [cap(buf) = max]): the tokens delivered, and what [scanner.Err()]
    would say.  [held] is the part of the current line that is in the
    buffer, [data] what the reader still has.  A line is delivered when
    its line feed is in the buffer; when the buffer is full and holds no
    line feed, [Scan] gives up with [ErrTooLong]; what is left at the end
    of the input is delivered as a last line unless it is empty.  The
    input ends with the body or with a read error: [Scan] does not tell
    these apart. *)
Fixpoint scanFrom (max : Z) (held data : string) : list string * option error :=
  match data with
  | EmptyString =>
      (if decide (held = EmptyString) then [] else [dropCR held], None)
  | String c rest =>
      if decide (c = LF) then
        let '(tokens, err) := scanFrom max EmptyString rest in
        (dropCR held :: tokens, err)
      else if decide (max <= Z.of_nat (String.length held) + 1) then
        ([], Some ErrTooLong)
      else scanFrom max (held +:+ String c EmptyString) rest
  end.

Definition Scan (max : Z) (body : string) : list string * option error :=
  scanFrom max EmptyString body.

(** A body of lines, each closed by a line feed. *)
Fixpoint ndjson (lines : list string) : string :=
  match lines with
  | [] => EmptyString
  | line :: rest => line +:+ String LF (ndjson rest)
  end.

(** [count] times the byte [c]. *)
Definition bytesOf (count : N) (c : ascii) : string :=
  N.iter count (String c) EmptyString.

End bufio.

(** [path/filepath] with [/] as the separator. *)
Module filepath.

Import strings.

Definition nonEmpty (e : string) : bool := negb (bool_decide (e = EmptyString)).

(** [filepath.Base]: the last element, trailing separators dropped. *)
Definition Base (path : string) : string :=
  if decide (path = EmptyString) then "."
  else default "/" (last (filter (fun e => nonEmpty e = true) (Split path "/"))).

(** [filepath.Ext]: the suffix from the last dot of the last element. *)
Fixpoint Ext (path : string) : string :=
  match path with
  | EmptyString => EmptyString
  | String c rest =>
      if nonEmpty (Ext rest) then Ext rest
      else if Contains rest "/" then EmptyString
      else if bool_decide (c = "."%char) then path
      else EmptyString
  end.

(** One element of [filepath.Clean]'s scan: [stack] holds the elements
    kept so far, last one first. *)
Definition cleanStep (rooted : bool) (stack : list string) (e : string)
  : list string :=
  if bool_decide (e = EmptyString) || bool_decide (e = ".") then stack
  else if bool_decide (e = "..") then
    match stack with
    | top :: below => if bool_decide (top = "..") then e :: stack else below
    | [] => if rooted then [] else [e]
    end
  else e :: stack.

Definition Clean (path : string) : string :=
  let rooted := Contains (String.substring 0 1 path) "/" in
  let kept := rev (fold_left (cleanStep rooted) (Split path "/") []) in
  let out := (if rooted then "/" else EmptyString) +:+ strings.Join kept "/" in
  if decide (out = EmptyString) then "." else out.

(** [filepath.Join]: the elements from the first non-empty one on,
    joined by the separator and cleaned. *)
Fixpoint Join (elem : list string) : string :=
  match elem with
  | [] => EmptyString
  | e :: rest =>
      if nonEmpty e then Clean (strings.Join elem "/") else Join rest
  end.

End filepath.

(** ** The outside world of the renderer

    The PDF library, the image encoder and the file system are not part of
    the repository.  Their calls are taken as functions that read and
    change a world state [O]: nothing is assumed about what they answer,
    nor that two calls with the same arguments answer alike. *)
Record Platform (O Page Image : Type) : Type := {
  (** [reader.GetPage(pageNum)]: the page pointer ([None] is [nil]) and the error *)
  GetPage : Z -> O -> O * (option Page * option error);
  (** [device.Render(page)] with [OutputWidth = 1400] *)
  deviceRender : Page -> O -> O * (error + Image);
  (** [os.Create(path)] *)
  osCreate : string -> O -> O * option error;
  (** [jpeg.Encode(f, img, &jpeg.Options{Quality: 90})] on the file at [path] *)
  jpegEncode : string -> Image -> O -> O * option error;
  (** [os.Stat(dir)] and, when the directory is missing, [os.MkdirAll(dir, 0755)] *)
  ensureDir : string -> O -> O * option error;
}.
Arguments GetPage {O Page Image} _ _ _.
Arguments deviceRender {O Page Image} _ _ _.
Arguments osCreate {O Page Image} _ _ _.
Arguments jpegEncode {O Page Image} _ _ _ _.
Arguments ensureDir {O Page Image} _ _ _.

(** ** internal/cli: ParsePageRange and RenderPdfPage *)

Module cli.

Import strconv strings.

(** What [ParsePageRange] returns: the slice and the error ([None] is
    [nil]; the text is what [fmt.Errorf] formatted). *)
Definition result : Type := list Z * option error.

Definition Errorf (format arg : string) : error := errorString (format +:+ arg).

(** [for i := start; i <= end; i++ { pageNumbers = append(pageNumbers, i) }]
    One unit of fuel per evaluation of the loop condition. *)
Fixpoint rangeLoop (fuel : nat) (i end_ : Z) (pageNumbers : list Z)
  : outcome (list Z) :=
  match fuel with
  | O => OutOfFuel
  | S fuel' =>
      if i <=? end_
      then rangeLoop fuel' (wrap (i + 1)) end_ (pageNumbers ++ [i])
      else Returned pageNumbers
  end.

(** [make([]int, len, cap)]: [len] zeroes. *)
Definition make (len cap : nat) : list Z := replicate len 0.

(** [for i, r := range ranges { pageNumbers[i], err = strconv.Atoi(r); ... }]
    The store into [pageNumbers[i]] is bounds-checked before [err] is
    looked at. *)
Fixpoint commaLoop (i : nat) (ranges : list string) (pageNumbers : list Z)
  : outcome result :=
  match ranges with
  | [] => Returned (pageNumbers, None)
  | r :: rest =>
      if decide (i < length pageNumbers)%nat then
        let pageNumbers' := <[i := AtoiValue r]> pageNumbers in
        match Atoi r with
        | None => Returned ([], Some (Errorf "invalid page number: " r))
        | Some _ => commaLoop (S i) rest pageNumbers'
        end
      else Panicked (IndexOutOfRange (Z.of_nat i) (length pageNumbers))
  end.

(** The [if strings.Contains(pageRange, "-")] block.  [inl] is an early
    [return nil, err]; [inr] is the value of [pageNumbers] after it. *)
Definition dashBlock (fuel : nat) (pageRange : string)
  : outcome (error + list Z) :=
  if Contains pageRange "-" then
    let parts := Split pageRange "-" in
    if decide (length parts ≠ 2%nat) then
      Returned (inl (Errorf "invalid page range format: " pageRange))
    else
      let p0 := default EmptyString (parts !! 0%nat) in
      let p1 := default EmptyString (parts !! 1%nat) in
      match Atoi p0 with
      | None => Returned (inl (Errorf "invalid start page: " p0))
      | Some start =>
          match Atoi p1 with
          | None => Returned (inl (Errorf "invalid end page: " p1))
          | Some end_ =>
              pageNumbers ← rangeLoop fuel start end_ [];
              Returned (inr pageNumbers)
          end
      end
  else Returned (inr []).

Definition ParsePageRange (fuel : nat) (pageRange : string) : outcome result :=
  if decide (pageRange = EmptyString) then Returned ([], None)
  else
    d ← dashBlock fuel pageRange;
    match d with
    | inl err => Returned ([], Some err)
    | inr pageNumbers =>
        if Contains pageRange "," then
          let ranges := Split pageRange "," in
          commaLoop 0 ranges (make 0 (length ranges))
        else Returned (pageNumbers, None)
    end.

(** [fmt.Sprintf("/page_%d.jpg", pageNumber)] *)
Definition pageFileName (pageNumber : Z) : string :=
  "/page_" +:+ pretty pageNumber +:+ ".jpg".

Section RenderPdfPage.

Context {O Page Image : Type} (platform : Platform O Page Image).

Definition RenderPdfPage (pageNumber : Z) (page : option Page)
    (outputDir : string) (w : O) : O * (string * option error) :=
  match page with
  | None => (w, (EmptyString, Some (errorString "page is nil")))
  | Some pg =>
      let '(w1, rendered) := deviceRender platform pg w in
      match rendered with
      | inl err => (w1, (EmptyString, Some err))
      | inr img =>
          let outputFilePath := outputDir +:+ pageFileName pageNumber in
          let '(w2, created) := osCreate platform outputFilePath w1 in
          match created with
          | Some err =>
              (w2, (EmptyString,
                    Some (wrapError "failed to create output file: " err)))
          | None =>
              let '(w3, encoded) :=
                jpegEncode platform outputFilePath img w2 in
              match encoded with
              | Some err =>
                  (w3, (EmptyString,
                        Some (wrapError "failed to encode image: " err)))
              | None => (w3, (outputFilePath, None))
              end
          end
      end
  end.

End RenderPdfPage.

End cli.

(** ** pkg/uniai: the streaming client *)

Module uniai.

(** [http.StatusBadRequest] *)
Definition StatusBadRequest : Z := 400.

Definition Byte : Z := 1.
Definition KiloByte : Z := Byte * 1000.
Definition maxBufferSize : Z := 512 * KiloByte.

(** The part of [*http.Response] that the scan loop reads.  [Body] is
    the sequence of tokens [scanner.Scan] delivers, in order, before it
    returns false (end of the body, a read error or a line that does not
    fit the [maxBufferSize] buffer: the loop does not tell these apart,
    [scanner.Err] is never consulted).  [scanned] below computes it from
    the bytes of the body. *)
Record Response : Type := {
  StatusCode : Z;
  Status : string;
  Body : list string;
}.

(** What the calls before the scan loop answer: [json.Marshal(data)],
    [http.NewRequestWithContext] and [c.client.Do(request)]. *)
Record transport : Type := {
  Marshal : option error;
  NewRequest : option error;
  Do : error + Response;
}.

(** [*http.Response] as [c.client.Do] hands it over.  [Bytes] is what
    reading [response.Body] yields until it ends, with the body or with a
    read error. *)
Record httpResponse : Type := {
  Code : Z;
  Reason : string;
  Bytes : string;
}.

(** The response as the scan loop sees it: the scanner is given a buffer
    of [maxBufferSize] bytes by [scanner.Buffer(scanBuf, maxBufferSize)],
    and [scanner.Err()] is never asked. *)
Definition scanned (r : httpResponse) : Response :=
  {| StatusCode := Code r; Status := Reason r;
     Body := (bufio.Scan maxBufferSize (Bytes r)).1 |}.

(** What the calls before the scan loop answer, with the body as bytes. *)
Record wire : Type := {
  Marshalled : option error;
  Requested : option error;
  Answered : error + httpResponse;
}.

Definition delivered (w : wire) : transport :=
  {| Marshal := Marshalled w; NewRequest := Requested w;
     Do := match Answered w with
           | inl err => inl err
           | inr r => inr (scanned r)
           end |}.

Section stream.

(** The state the callback closes over. *)
Context {S : Type}.

(** [json.Unmarshal(bts, &errorResponse)]: the decoding error, or the
    value of the [Error] field afterwards. *)
Variable unmarshalError : string -> error + string.

(** [fn func([]byte) error], with the state it may change. *)
Definition handler : Type := string -> S -> S * option error.

(** What a call of [stream] leaves: the callback's state, the lines the
    callback was invoked on (in order), and the returned error. *)
Definition run : Type := S * list string * option error.

Definition invoked (bts : string) (r : run) : run :=
  let '(st, calls, err) := r in (st, bts :: calls, err).

(** [for scanner.Scan() { ... }; return nil] *)
Fixpoint scanLoop (response : Response) (fn : handler)
    (lines : list string) (st : S) : run :=
  match lines with
  | [] => (st, [], None)
  | bts :: rest =>
      match unmarshalError bts with
      | inl err => (st, [], Some (wrapError "unmarshal: " err))
      | inr errorText =>
          if decide (errorText <> EmptyString) then
            (st, [], Some (errorString errorText))
          else if decide (StatusCode response >= StatusBadRequest) then
            (st, [], Some (StatusError (StatusCode response)
                             (Status response) errorText))
          else
            match fn bts st with
            | (st', Some err) => (st', [bts], Some err)
            | (st', None) => invoked bts (scanLoop response fn rest st')
            end
      end
  end.

(** [func (c *Client) stream(ctx, method, path, data, fn) error];
    [hasData] is [data != nil]. *)
Definition stream (t : transport) (hasData : bool) (fn : handler) (st : S)
  : run :=
  match (if hasData then Marshal t else None) with
  | Some err => (st, [], Some err)
  | None =>
      match NewRequest t with
      | Some err => (st, [], Some err)
      | None =>
          match Do t with
          | inl err => (st, [], Some err)
          | inr response => scanLoop response fn (Body response) st
          end
      end
  end.

(** [stream] on the bytes of the body. *)
Definition streamBytes (w : wire) (hasData : bool) (fn : handler) (st : S)
  : run :=
  stream (delivered w) hasData fn st.

(** [Generate]: each line is decoded into a [GenerateResponse] before
    the caller's [fn] sees it.  [req] is a pointer stored in an
    interface, so [data != nil] holds. *)
Variable GenerateResponse : Type.
Variable unmarshalGenerateResponse : string -> error + GenerateResponse.

Definition GenerateResponseFunc : Type :=
  GenerateResponse -> S -> S * option error.

Definition Generate (t : transport) (fn : GenerateResponseFunc) (st : S)
  : run :=
  stream t true
    (fun bts st =>
       match unmarshalGenerateResponse bts with
       | inl err => (st, Some err)
       | inr resp => fn resp st
       end) st.

(** [Chat]: the same on [/api/chat], decoding into a [ChatResponse]. *)
Variable ChatResponse : Type.
Variable unmarshalChatResponse : string -> error + ChatResponse.

Definition ChatResponseFunc : Type := ChatResponse -> S -> S * option error.

Definition Chat (t : transport) (fn : ChatResponseFunc) (st : S) : run :=
  stream t true
    (fun bts st =>
       match unmarshalChatResponse bts with
       | inl err => (st, Some err)
       | inr resp => fn resp st
       end) st.

End stream.

End uniai.

(** ** cmd: the page loop of the uniai command *)

Module cmd.

Import strconv cli.

Record renderedPage : Type := {
  pageNum : Z;
  filePath : string;
}.

(** The zero value a fresh slot of [renderedPages] holds. *)
Definition emptySlot : renderedPage := {| pageNum := 0; filePath := EmptyString |}.

#[global] Instance renderedPage_eq_dec : EqDecision renderedPage.
Proof. solve_decision. Defined.

(** What the loop prints. *)
Inductive message : Type :=
| PageOutOfRange (pageNum : Z)
| FailedToGetPage (err : error)
| FailedToRenderPage (err : error)
| RenderedPage (pageNum : Z) (output : string).

(** [sem = make(chan struct{}, 3)] *)
Definition concurrencyLimit : nat := 3.

(** [--pages]: the selector is parsed only when given; an empty page list
    stands for every page of the document, collected by
    [for i := 1; i <= numPages; i++ { pageNumbers = append(pageNumbers, i) }],
    a loop of the shape of [rangeLoop]. *)
Definition selectPages (fuel : nat) (pageRange : string) (numPages : Z)
  : outcome (error + list Z) :=
  parsed ← (if decide (pageRange <> EmptyString)
            then ParsePageRange fuel pageRange
            else Returned ([], None));
  match parsed with
  | (_, Some err) => Returned (inl err)
  | (pageNumbers, None) =>
      if decide (length pageNumbers = 0%nat) then
        all ← rangeLoop fuel 1 numPages pageNumbers;
        Returned (inr all)
      else Returned (inr pageNumbers)
  end.

(** [renderedPages := make([]renderedPage, numPages)] *)
Definition makeSlots (numPages : Z) : outcome (list renderedPage) :=
  if decide (numPages < 0) then Panicked MakeSliceLenOutOfRange
  else Returned (replicate (Z.to_nat numPages) emptySlot).

(** [filepath.Join(outputDir, dirName)] with [dirName] the base name of
    the PDF without its extension. *)
Definition dirName (filePath : string) : string :=
  let base := filepath.Base filePath in
  strings.TrimSuffix base (filepath.Ext base).

Definition outDir (outputDir filePath : string) : string :=
  filepath.Join [outputDir; dirName filePath].

Section Render.

Context {O Page Image : Type} (platform : Platform O Page Image).

(** The memory the page loop works on: the result slots, the lines
    printed so far, and the outside world. *)
Record store : Type := {
  renderedPages : list renderedPage;
  console : list message;
  world : O;
}.

Definition println (m : message) (s : store) (w : O) : store :=
  {| renderedPages := renderedPages s;
     console := console s ++ [m];
     world := w |}.

(** [renderedPages[pageNum-1] = renderedPage{pageNum, output}] *)
Definition setSlot (pageNum : Z) (output : string) (s : store) (w : O)
  : outcome store :=
  let i := pageNum - 1 in
  if decide (0 <= i < Z.of_nat (length (renderedPages s))) then
    Returned
      {| renderedPages :=
           <[Z.to_nat i := {| pageNum := pageNum; filePath := output |}]>
             (renderedPages s);
         console := console s;
         world := w |}
  else Panicked (IndexOutOfRange i (length (renderedPages s))).

(** The body both branches share: [GetPage], [cli.RenderPdfPage], the
    store into the slot and the report.  [dir] is the directory the
    branch hands to [RenderPdfPage]. *)
Definition renderInto (dir : string) (pageNum : Z) (s : store)
  : outcome store :=
  let '(w1, (page, err)) := GetPage platform pageNum (world s) in
  match err with
  | Some err => Returned (println (FailedToGetPage err) s w1)
  | None =>
      let '(w2, (output, err)) :=
        RenderPdfPage platform pageNum page dir w1 in
      match err with
      | Some err => Returned (println (FailedToRenderPage err) s w2)
      | None =>
          s' ← setSlot pageNum output s w2;
          Returned (println (RenderedPage pageNum output) s' w2)
      end
  end.

(** The loop with [isParallel = false]: the render runs in the loop
    itself and is handed [outputDir]. *)
Fixpoint sequentialLoop (numPages : Z) (outputDir : string)
    (pageNumbers : list Z) (s : store) : outcome store :=
  match pageNumbers with
  | [] => Returned s
  | pageNum :: rest =>
      if decide (pageNum < 1 \/ pageNum > numPages) then
        sequentialLoop numPages outputDir rest
          (println (PageOutOfRange pageNum) s (world s))
      else
        s' ← renderInto outputDir pageNum s;
        sequentialLoop numPages outputDir rest s'
  end.

(** *** The loop with [isParallel = true]

    One goroutine per page in range.  The main goroutine and the
    workers take turns in any order; a turn is one of the statements
    below.  The body of a worker (everything before its deferred calls)
    is one turn. *)

(** Where a worker stands: in its body, before the deferred [<-sem],
    before the deferred [wg.Done()], or gone. *)
Inductive workerPc : Type := AtBody | AtRelease | AtDone | Exited.

#[global] Instance workerPc_eq_dec : EqDecision workerPc.
Proof. solve_decision. Defined.

(** Where the main goroutine stands: at the head of the loop with the
    pages left, after [wg.Add(1)], after [sem <- struct{}{}], past
    [wg.Wait()], or dead because some goroutine panicked. *)
Inductive mainPc : Type :=
| AtLoop (remaining : list Z)
| AtAcquire (pageNum : Z) (remaining : list Z)
| AtGo (pageNum : Z) (remaining : list Z)
| Joined
| Crashed (p : panic).

Record machine : Type := {
  main : mainPc;
  workers : list (Z * workerPc);
  sem : nat;
  wg : Z;
  mem : store;
}.

Definition initial (pageNumbers : list Z) (s : store) : machine :=
  {| main := AtLoop pageNumbers; workers := []; sem := 0; wg := 0; mem := s |}.

Definition alive (m : machine) : Prop :=
  match main m with Crashed _ => False | _ => True end.

Inductive step (numPages : Z) (dir : string) : machine -> machine -> Prop :=
| step_skip pageNum rest ws sm w s :
    pageNum < 1 \/ pageNum > numPages ->
    step numPages dir
      {| main := AtLoop (pageNum :: rest); workers := ws; sem := sm; wg := w; mem := s |}
      {| main := AtLoop rest; workers := ws; sem := sm; wg := w;
         mem := println (PageOutOfRange pageNum) s (world s) |}
| step_add pageNum rest ws sm w s :
    ~ (pageNum < 1 \/ pageNum > numPages) ->
    step numPages dir
      {| main := AtLoop (pageNum :: rest); workers := ws; sem := sm; wg := w; mem := s |}
      {| main := AtAcquire pageNum rest; workers := ws; sem := sm; wg := w + 1; mem := s |}
| step_acquire pageNum rest ws sm w s :
    (sm < concurrencyLimit)%nat ->
    step numPages dir
      {| main := AtAcquire pageNum rest; workers := ws; sem := sm; wg := w; mem := s |}
      {| main := AtGo pageNum rest; workers := ws; sem := S sm; wg := w; mem := s |}
| step_go pageNum rest ws sm w s :
    step numPages dir
      {| main := AtGo pageNum rest; workers := ws; sem := sm; wg := w; mem := s |}
      {| main := AtLoop rest; workers := ws ++ [(pageNum, AtBody)]; sem := sm; wg := w; mem := s |}
| step_wait ws sm s :
    step numPages dir
      {| main := AtLoop []; workers := ws; sem := sm; wg := 0; mem := s |}
      {| main := Joined; workers := ws; sem := sm; wg := 0; mem := s |}
| step_body i pageNum m s' :
    alive m ->
    workers m !! i = Some (pageNum, AtBody) ->
    renderInto dir pageNum (mem m) = Returned s' ->
    step numPages dir m
      {| main := main m; workers := <[i := (pageNum, AtRelease)]> (workers m);
         sem := sem m; wg := wg m; mem := s' |}
| step_body_panic i pageNum m p :
    alive m ->
    workers m !! i = Some (pageNum, AtBody) ->
    renderInto dir pageNum (mem m) = Panicked p ->
    step numPages dir m
      {| main := Crashed p; workers := workers m;
         sem := sem m; wg := wg m; mem := mem m |}
| step_release i pageNum m sm :
    alive m ->
    workers m !! i = Some (pageNum, AtRelease) ->
    sem m = S sm ->
    step numPages dir m
      {| main := main m; workers := <[i := (pageNum, AtDone)]> (workers m);
         sem := sm; wg := wg m; mem := mem m |}
| step_done i pageNum m :
    alive m ->
    workers m !! i = Some (pageNum, AtDone) ->
    0 < wg m ->
    step numPages dir m
      {| main := main m; workers := <[i := (pageNum, Exited)]> (workers m);
         sem := sem m; wg := wg m - 1; mem := mem m |}
| step_done_panic i pageNum m :
    alive m ->
    workers m !! i = Some (pageNum, AtDone) ->
    wg m <= 0 ->
    step numPages dir m
      {| main := Crashed NegativeWaitGroupCounter; workers := workers m;
         sem := sem m; wg := wg m - 1; mem := mem m |}.

Inductive reachable (numPages : Z) (dir : string) (m0 : machine)
  : machine -> Prop :=
| reachable_start : reachable numPages dir m0 m0
| reachable_step m m' :
    reachable numPages dir m0 m -> step numPages dir m m' ->
    reachable numPages dir m0 m'.

(** How many workers stand at one of the places [pcs]. *)
Definition standing (pcs : list workerPc) (ws : list (Z * workerPc)) : nat :=
  length (List.filter (fun w => bool_decide (w.2 ∈ pcs)) ws).

(** The render bodies in flight. *)
Definition running (m : machine) : nat := standing [AtBody] (workers m).

(** *** The command up to the end of the page loop *)

(** The ways [Run] returns before the page loop. *)
Inductive early : Type :=
| ShowedHelp
| InvalidPageRange (err : error)
| FailedToCreateOutputDir (err : error).

(** Everything before the page loop.  [numPages] is what
    [pdfReader.GetNumPages()] answered for the file. *)
Definition prepare (fuel : nat) (filePath outputDir prompt pageRange : string)
    (numPages : Z) (w : O) : outcome (early + list Z * store) :=
  if decide (filePath = EmptyString \/ outputDir = EmptyString
             \/ prompt = EmptyString)
  then Returned (inl ShowedHelp)
  else
    selected ← selectPages fuel pageRange numPages;
    match selected with
    | inl err => Returned (inl (InvalidPageRange err))
    | inr pageNumbers =>
        slots ← makeSlots numPages;
        let '(w1, made) := ensureDir platform (outDir outputDir filePath) w in
        match made with
        | Some err => Returned (inl (FailedToCreateOutputDir err))
        | None =>
            Returned (inr (pageNumbers,
                           {| renderedPages := slots; console := [];
                              world := w1 |}))
        end
    end.

(** [isParallel = false]: the whole run up to [wg.Wait()]. *)
Definition runSequential (fuel : nat)
    (filePath outputDir prompt pageRange : string) (numPages : Z) (w : O)
  : outcome (early + store) :=
  prepared ← prepare fuel filePath outputDir prompt pageRange numPages w;
  match prepared with
  | inl e => Returned (inl e)
  | inr (pageNumbers, s) =>
      s' ← sequentialLoop numPages outputDir pageNumbers s;
      Returned (inr s')
  end.

(** [isParallel = true]: the states the run can be in, up to
    [wg.Wait()].  The workers are handed [outDir]. *)
Definition runsParallel (fuel : nat)
    (filePath outputDir prompt pageRange : string) (numPages : Z) (w : O)
    (m : machine) : Prop :=
  exists pageNumbers s,
    prepare fuel filePath outputDir prompt pageRange numPages w
      = Returned (inr (pageNumbers, s)) /\
    reachable numPages (outDir outputDir filePath)
      (initial pageNumbers s) m.

End Render.

End cmd.

(** ** Vocabulary of the statements *)

Module spec.

Import uniai cmd.

Section Handlers.

Context {S : Type}.

(** The callback accepts every line of [lines] in turn, taking the
    state from [st] to the result. *)
Fixpoint handleAll (fn : @handler S) (lines : list string) (st : S)
  : option S :=
  match lines with
  | [] => Some st
  | bts :: rest =>
      match fn bts st with
      | (st', None) => handleAll fn rest st'
      | (_, Some _) => None
      end
  end.

End Handlers.

(** The transport handed the request over and got [response] back. *)
Definition responded (t : transport) (hasData : bool) (response : Response)
  : Prop :=
  (if hasData then Marshal t else None) = None /\
  NewRequest t = None /\ Do t = inr response.

(** The request went out and [reply] came back. *)
Definition replied (w : wire) (hasData : bool) (reply : httpResponse) : Prop :=
  (if hasData then Marshalled w else None) = None /\
  Requested w = None /\ Answered w = inr reply.

(** A line of a body that [Scan] hands over and the probe finds plain: it
    holds no line feed, is shorter than the buffer of the scanner, and
    decodes with an empty [error] field. *)
Definition plainLine (unmarshalError : string -> error + string)
    (line : string) : Prop :=
  strings.Contains line bufio.LF = false /\
  Z.of_nat (String.length line) < maxBufferSize /\
  unmarshalError (bufio.dropCR line) = inr EmptyString.

(** What a worker at [pc] counts for in [standing pcs]. *)
Definition weight (pcs : list workerPc) (pc : workerPc) : nat :=
  if bool_decide (pc ∈ pcs) then 1 else 0.

Section Scheduling.

Context {O Page Image : Type}.

(** The file the render of page [p] is written to when [RenderPdfPage] is
    handed [dir]. *)
Definition pagePath (dir : string) (p : Z) : string := dir +:+ cli.pageFileName p.

(** What one run of the shared body does to the memory: one line is
    printed, and on success the slot of the page is filled. *)
Inductive bodyEffect (dir : string) (p : Z) (s : @store O) : @store O -> Prop :=
| effect_get_failed err w :
    bodyEffect dir p s (println (FailedToGetPage err) s w)
| effect_render_failed err w :
    bodyEffect dir p s (println (FailedToRenderPage err) s w)
| effect_rendered w :
    0 <= p - 1 < Z.of_nat (length (renderedPages s)) ->
    bodyEffect dir p s
      {| renderedPages :=
           <[Z.to_nat (p - 1) := {| pageNum := p; filePath := pagePath dir p |}]>
             (renderedPages s);
         console := console s ++ [RenderedPage p (pagePath dir p)];
         world := w |}.

(** The slots and the printed lines agree: there are [numPages] slots, a
    filled slot [i] holds page [i+1] and its file and was reported, a
    reported page is in range and sits in slot [p-1], and only pages out of
    range were warned about. *)
Record slotsOK (numPages : Z) (dir : string) (s : @store O) : Prop := {
  slots_length : length (renderedPages s) = Z.to_nat numPages;
  slots_filled : forall (i : nat) slot,
    renderedPages s !! i = Some slot -> slot <> emptySlot ->
    slot = {| pageNum := Z.of_nat i + 1;
              filePath := pagePath dir (Z.of_nat i + 1) |} /\
    RenderedPage (Z.of_nat i + 1) (pagePath dir (Z.of_nat i + 1)) ∈ console s;
  rendered_stored : forall p out,
    RenderedPage p out ∈ console s ->
    1 <= p <= numPages /\ out = pagePath dir p /\
    renderedPages s !! Z.to_nat (p - 1) = Some {| pageNum := p; filePath := out |};
  warned_out : forall q,
    PageOutOfRange q ∈ console s -> q < 1 \/ q > numPages;
}.

(** The memory after the page loop went through [pageNumbers]: one line
    was printed per requested page, every page out of range was warned
    about, and only requested pages were rendered. *)
Record scheduled (numPages : Z) (dir : string) (pageNumbers : list Z)
    (s : @store O) : Prop := {
  sched_slots : slotsOK numPages dir s;
  sched_lines : length (console s) = length pageNumbers;
  sched_warned : forall q,
    q ∈ pageNumbers -> q < 1 \/ q > numPages -> PageOutOfRange q ∈ console s;
  sched_requested : forall p out,
    RenderedPage p out ∈ console s -> p ∈ pageNumbers;
}.

(** A memory with [numPages] empty slots and nothing printed. *)
Definition fresh (numPages : Z) (w : O) : @store O :=
  {| renderedPages := replicate (Z.to_nat numPages) emptySlot;
     console := []; world := w |}.

(** The pages the main goroutine has not dealt with yet. *)
Definition pending (pc : mainPc) : list Z :=
  match pc with
  | AtLoop rest => rest
  | AtAcquire p rest | AtGo p rest => p :: rest
  | Joined | Crashed _ => []
  end.

(** The page the main goroutine has counted in [wg] but not started yet. *)
Definition adding (pc : mainPc) : list Z :=
  match pc with
  | AtAcquire p _ | AtGo p _ => [p]
  | _ => []
  end.

(** The slot of [sem] the main goroutine took for a worker not started yet. *)
Definition taken (pc : mainPc) : nat :=
  match pc with AtGo _ _ => 1 | _ => 0 end.

Definition inRangeb (numPages p : Z) : bool :=
  bool_decide (1 <= p <= numPages).

(** The invariant of the parallel loop on [pageNumbers]: [done] is the part
    of the list the main goroutine is through with. *)
Record machineOK (numPages : Z) (dir : string) (pageNumbers : list Z)
    (m : @machine O) : Prop := {
  ok_alive : alive m;
  ok_sem : sem m = (standing [AtBody; AtRelease] (workers m) + taken (main m))%nat;
  ok_limit : (sem m <= concurrencyLimit)%nat;
  ok_wg : wg m = Z.of_nat (standing [AtBody; AtRelease; AtDone] (workers m)
                           + length (adding (main m)));
  ok_joined : main m = Joined -> wg m = 0;
  ok_slots : slotsOK numPages dir (mem m);
  ok_adding : forall p, p ∈ adding (main m) -> 1 <= p <= numPages;
  ok_range : Forall (fun w => 1 <= w.1 <= numPages) (workers m);
  ok_done : exists done,
    pageNumbers = done ++ pending (main m) /\
    (workers m).*1 = List.filter (inRangeb numPages) done /\
    (length (console (mem m))
      = length (List.filter (fun q => negb (inRangeb numPages q)) done)
        + standing [AtRelease; AtDone; Exited] (workers m))%nat /\
    (forall q, q ∈ done -> q < 1 \/ q > numPages ->
               PageOutOfRange q ∈ console (mem m)) /\
    (forall p out, RenderedPage p out ∈ console (mem m) -> p ∈ done);
}.

End Scheduling.





(** A world in which every call succeeds; its state is the list of the
    files created so far. *)
Definition demoPlatform : Platform (list string) Z Z :=
  {| GetPage := fun pageNum w => (w, (Some pageNum, None));
     deviceRender := fun page w => (w, inr page);
     osCreate := fun path w => (w ++ [path], None);
     jpegEncode := fun path img w => (w, None);
     ensureDir := fun dir w => (w, None) |}.

(** A world in which files can be created and nothing can be written
    to them. *)
Definition fullDisk : Platform (list string) Z Z :=
  {| GetPage := fun pageNum w => (w, (Some pageNum, None));
     deviceRender := fun page w => (w, inr page);
     osCreate := fun path w => (w ++ [path], None);
     jpegEncode := fun path img w =>
       (w, Some (errorString "no space left on device"));
     ensureDir := fun dir w => (w, None) |}.


(** A decoder and a callback to run the client on: a line that starts
    with an exclamation mark carries the error text after it, the
    callback counts the lines it sees and refuses the line [stop]. *)
Definition demoUnmarshalError (bts : string) : error + string :=
  match bts with
  | String "!" text => inr text
  | _ => inr EmptyString
  end.

Definition demoHandler : @handler nat :=
  fun bts seen =>
    (Datatypes.S seen,
     if decide (bts = "stop") then Some (errorString "enough") else None).

Definition demoTransport (status : Z) (lines : list string) : transport :=
  {| Marshal := None; NewRequest := None;
     Do := inr {| StatusCode := status; Status := "status"; Body := lines |} |}.

Definition demoWire (status : Z) (body : string) : wire :=
  {| Marshalled := None; Requested := None;
     Answered := inr {| Code := status; Reason := "status"; Bytes := body |} |}.

(** A body of three lines, the second of which is [maxBufferSize] bytes
    long. *)
Definition longLine : string := bufio.bytesOf 512000 "x".

Definition longBody : string := bufio.ndjson ["a"; longLine; "c"].

End spec.

(** ** encoding/base64 *)

Module base64.

(** The alphabet of [base64.StdEncoding]. *)
Definition encodeStd : string :=
  "ABCDEFGHIJKLMNOPQRSTUVWXYZabcdefghijklmnopqrstuvwxyz0123456789+/".

Definition sextet (v : N) (shift : N) : ascii :=
  default "A"%char
    (String.get (N.to_nat (N.land (N.shiftr v shift) 63)) encodeStd).

Definition byte (c : ascii) : N := N_of_ascii c.

(** [base64.StdEncoding.EncodeToString]: three bytes give four letters, a
    rest of one or two bytes is padded with [=]. *)
Fixpoint EncodeToString (src : string) : string :=
  match src with
  | EmptyString => EmptyString
  | String a EmptyString =>
      let val := N.shiftl (byte a) 16 in
      String (sextet val 18) (String (sextet val 12) "==")
  | String a (String b EmptyString) =>
      let val := N.lor (N.shiftl (byte a) 16) (N.shiftl (byte b) 8) in
      String (sextet val 18) (String (sextet val 12) (String (sextet val 6) "="))
  | String a (String b (String c rest)) =>
      let val := N.lor (N.lor (N.shiftl (byte a) 16) (N.shiftl (byte b) 8))
                   (byte c) in
      String (sextet val 18) (String (sextet val 12)
        (String (sextet val 6) (String (sextet val 0) (EncodeToString rest))))
  end.

End base64.

(** ** pkg/uniai: the client and its plain calls *)

Module uniai_client.

Import uniai.

Definition API_BASEURL : string := EmptyString.
Definition ModelDefault : string := "uniai01:7b".

(** The fields of a [StatusError] value, as [checkError] fills them. *)
Record StatusErrorValue : Type := {
  seStatusCode : Z;
  seStatus : string;
  seErrorMessage : string;
}.

Definition asError (e : StatusErrorValue) : error :=
  StatusError (seStatusCode e) (seStatus e) (seErrorMessage e).

(** A call that dereferences [c.baseURL] either finishes or dies on the
    nil pointer. *)
Inductive called (A : Type) : Type :=
| Finished (a : A)
| NilURL.
Arguments Finished {A} a.
Arguments NilURL {A}.

(** What [do] is handed as [reqData]: nil, an [io.Reader] with its
    content, or any other value with what [json.Marshal] makes of it. *)
Inductive reqData : Type :=
| NilData
| ReaderData (content : string)
| ValueData (marshalled : error + string).

Section Client.

(** [*url.URL] and [*http.Client], with the calls of [net/url] and
    [net/http] the package makes. *)
Context {URL HTTPClient : Type}.
Variable urlParse : string -> error + URL.
Variable JoinPath : URL -> string -> URL.
Variable DefaultClient : HTTPClient.
(** The text [fmt.Sprintf] makes of [runtime.GOARCH], [GOOS] and [Version]. *)
Variable userAgent : string.

Record Client : Type := {
  client : HTTPClient;
  baseURL : option URL;
  authBasic : string;
}.

Record Request : Type := {
  Method : string;
  Target : URL;
  Header : gmap string string;
  Payload : option string;
}.

(** What [c.client.Do] gives back to [do]: the status and what
    [io.ReadAll(respObj.Body)] reads. *)
Record Answer : Type := {
  AnswerCode : Z;
  ReadAll : error + string;
}.

(** [http.NewRequestWithContext]: an error for a method or URL it refuses. *)
Variable newRequestError : string -> URL -> option error.
(** [c.client.Do(request)] in [do]. *)
Variable Do : HTTPClient -> Request -> error + Answer.
(** [json.Unmarshal(body, &apiError)]: the fields afterwards and the error. *)
Variable unmarshalStatusError :
  string -> StatusErrorValue -> StatusErrorValue * option error.

Definition NewClient (baseURL : string) (httpClient : option HTTPClient)
    (authBasic : string) : error + Client :=
  if decide (authBasic = EmptyString) then
    inl (errorString "authBasic cannot be empty")
  else
    let cl := default DefaultClient httpClient in
    let auth := base64.EncodeToString authBasic in
    if decide (baseURL = EmptyString) then
      match urlParse API_BASEURL with
      | inl err => inl err
      | inr base => inr {| client := cl; baseURL := Some base; authBasic := auth |}
      end
    else
      inr {| client := cl;
             baseURL := match urlParse baseURL with
                        | inl _ => None
                        | inr base => Some base
                        end;
             authBasic := auth |}.

(** The four [request.Header.Set] of [do] and [stream]; they differ in
    [accept]. *)
Definition requestHeader (accept : string) (c : Client) : gmap string string :=
  let h := <["User-Agent" := userAgent]>
             (<["Accept" := accept]>
                (<["Content-Type" := "application/json"]> ∅)) in
  if decide (authBasic c <> EmptyString)
  then <["Authorization" := "Basic " +:+ authBasic c]> h
  else h.

Definition checkError (statusCode : Z) (body : string) : option error :=
  if decide (statusCode < StatusBadRequest) then None
  else
    let apiError := {| seStatusCode := statusCode; seStatus := EmptyString;
                       seErrorMessage := EmptyString |} in
    let '(apiError, err) := unmarshalStatusError body apiError in
    match err with
    | Some _ =>
        Some (asError {| seStatusCode := seStatusCode apiError;
                         seStatus := seStatus apiError;
                         seErrorMessage := body |})
    | None => Some (asError apiError)
    end.

(** The [switch reqData := reqData.(type)] of [do]: the request body, or
    the error of [json.Marshal]. *)
Definition reqBodyOf (data : reqData) : error + option string :=
  match data with
  | NilData => inr None
  | ReaderData content => inr (Some content)
  | ValueData (inl err) => inl err
  | ValueData (inr bytes) => inr (Some bytes)
  end.

(** The request [do] sends. *)
Definition requestOf (c : Client) (method : string) (requestURL : URL)
    (reqBody : option string) : Request :=
  {| Method := method; Target := requestURL;
     Header := requestHeader "application/json" c;
     Payload := reqBody |}.

Section do.

(** The value [respData] points to, and [json.Unmarshal(respBody, respData)]
    on it: the value afterwards and the error. *)
Context {T : Type}.
Variable unmarshal : string -> T -> T * option error.

(** [func (c *Client) do(ctx, method, path, reqData, respData) error]:
    the value behind [respData] afterwards, and the error. *)
Definition do (c : Client) (method path : string) (data : reqData)
    (respData : option T) : called (option T * option error) :=
  match reqBodyOf data with
  | inl err => Finished (respData, Some err)
  | inr reqBody =>
      match baseURL c with
      | None => NilURL
      | Some base =>
          let requestURL := JoinPath base path in
          match newRequestError method requestURL with
          | Some err => Finished (respData, Some err)
          | None =>
              match Do (client c) (requestOf c method requestURL reqBody) with
              | inl err => Finished (respData, Some err)
              | inr respObj =>
                  match ReadAll respObj with
                  | inl err => Finished (respData, Some err)
                  | inr respBody =>
                      match checkError (AnswerCode respObj) respBody with
                      | Some err => Finished (respData, Some err)
                      | None =>
                          match respData with
                          | Some target =>
                              if decide (respBody <> EmptyString) then
                                let '(target', err) := unmarshal respBody target in
                                Finished (Some target', err)
                              else Finished (respData, None)
                          | None => Finished (respData, None)
                          end
                      end
                  end
              end
          end
      end
  end.

End do.

(** [Heartbeat]: a HEAD on the root, nothing sent and nothing decoded. *)
Definition Heartbeat (c : Client) : called (option error) :=
  match do (T := unit) (fun _ u => (u, None)) c "HEAD" "/" NilData None with
  | Finished (_, err) => Finished err
  | NilURL => NilURL
  end.

(** [Version]: [unmarshalVersion] is [json.Unmarshal] on the struct with
    the one field [Version], kept as that field. *)
Variable unmarshalVersion : string -> string -> string * option error.

Definition Version (c : Client) : called (string * option error) :=
  match do unmarshalVersion c "GET" "/api/version" NilData (Some EmptyString) with
  | Finished (_, Some err) => Finished (EmptyString, Some err)
  | Finished (version, None) => Finished (default EmptyString version, None)
  | NilURL => NilURL
  end.

(** [stream] on a client: the request is marshalled first, then
    [c.baseURL.JoinPath] dereferences the base URL; the rest is
    [uniai.stream]. *)
Definition Client_stream {S : Type} (unmarshalError : string -> error + string)
    (c : Client) (t : transport) (hasData : bool) (fn : @handler S) (st : S)
  : called (@run S) :=
  match (if hasData then Marshal t else None) with
  | Some err => Finished (st, [], Some err)
  | None =>
      match baseURL c with
      | None => NilURL
      | Some _ => Finished (stream unmarshalError t hasData fn st)
      end
  end.

(** [Generate] on a client: as [Client_stream], with the rest being
    [uniai.Generate]. *)
Definition Client_Generate {S Event : Type}
    (unmarshalError : string -> error + string)
    (unmarshalEvent : string -> error + Event)
    (c : Client) (t : transport) (fn : Event -> S -> S * option error) (st : S)
  : called (@run S) :=
  match Marshal t with
  | Some err => Finished (st, [], Some err)
  | None =>
      match baseURL c with
      | None => NilURL
      | Some _ => Finished (Generate unmarshalError Event unmarshalEvent t fn st)
      end
  end.

End Client.

End uniai_client.

(** ** cmd: from the rendered pages to the answers of the service *)

Module cmd_generate.

Import uniai uniai_client cmd.

(** Where [fmt.Fprint(os.Stderr, ...)] ends up: the terminal, or the file
    [os.Stderr] was set to. *)
Inductive sink : Type :=
| Terminal
| File (path : string).

#[global] Instance sink_eq_dec : EqDecision sink.
Proof. solve_decision. Defined.

(** What the loop prints with the builtin [println], which writes to the
    terminal whatever [os.Stderr] is. *)
Inductive line : Type :=
| FailedToInitialize (err : error)
| SavedTo (pageNum : Z) (filePath : string)
| FailedToReadFile (pageNum : Z) (err : error)
| FailedToCreateResponseDir (err : error)
| FailedToCreateResponseFile (pageNum : Z) (err : error)
| UserPrompt (prompt : string)
| SystemPrompt (system : string)
| ResponseFollows
| ResponseWrittenToFile
| FailedToGenerate (pageNum : Z) (err : error).

Definition systemPrompt : string :=
  "If user mentioned to process with 'high precision', it means prioritize to OCR the image file from request".

(** [uniai.GenerateRequest] as the loop fills it.  [Options] is
    [uniai.DefaultOptions], its numbers kept as their decimal text. *)
Record GenerateRequest : Type := {
  Model : string;
  Prompt : string;
  Images : list string;
  System : string;
  Options : gmap string string;
}.

Definition DefaultOptions : gmap string string :=
  <["temperature" := "0.25"]> (<["top_k" := "40"]> (<["top_p" := "0.95"]> ∅)).

Definition newline : string := String (ascii_of_nat 10) EmptyString.

(** The response file of a page. *)
Definition responseDir (outDir : string) : string :=
  filepath.Join [outDir; "response"].

Definition responseFilePath (outDir : string) (pageNum : Z) : string :=
  filepath.Join [responseDir outDir; "page_" +:+ pretty pageNum +:+ ".txt"].

Section Generate.

Context {O Page Image Event URL HTTPClient : Type}.
Context (platform : Platform O Page Image).

(** [os.ReadFile] *)
Variable ReadFile : string -> O -> O * (error + string).
(** What sending a request brings about: the world afterwards, and what
    [json.Marshal], [http.NewRequestWithContext] and [c.client.Do] answer,
    with the bytes of the body. *)
Variable exchange : GenerateRequest -> O -> O * wire.
(** The two decoders of a line, and the fields of [GenerateResponse],
    whose declaration is not part of these files. *)
Variable unmarshalError : string -> error + string.
Variable unmarshalEvent : string -> error + Event.
Variable Response : Event -> string.
Variable Done : Event -> bool.
(** Modelled from the spec: the method [Summary] of [GenerateResponse] is
    not part of these files.  By the spec the handler writes each delta
    to the active output sink and, on the terminal event, prints a
    trailing newline and a summary: [Summary resp] is the texts of that
    summary, which go where the deltas and the newline go, to
    [os.Stderr]. *)
Variable Summary : Event -> list string.

Record genState : Type := {
  stderr : sink;
  written : list (sink * string);
  summarized : list (sink * Event);
  printed : list line;
  stdout : list string;
  gworld : O;
}.

Definition say (l : line) (st : genState) : genState :=
  {| stderr := stderr st; written := written st; summarized := summarized st;
     printed := printed st ++ [l]; stdout := stdout st; gworld := gworld st |}.

Definition withWorld (w : O) (st : genState) : genState :=
  {| stderr := stderr st; written := written st; summarized := summarized st;
     printed := printed st; stdout := stdout st; gworld := w |}.

(** [fmt.Fprint(os.Stderr, text)] *)
Definition fprint (text : string) (st : genState) : genState :=
  {| stderr := stderr st; written := written st ++ [(stderr st, text)];
     summarized := summarized st; printed := printed st; stdout := stdout st;
     gworld := gworld st |}.

(** The texts of a summary, one after the other. *)
Definition fprintAll (texts : list string) (st : genState) : genState :=
  foldl (fun s text => fprint text s) st texts.

(** [funcResp]: the delta goes to [os.Stderr]; on the last event a line
    break follows and [resp.Summary()] is called.  It never errs. *)
Definition funcResp (resp : Event) (st : genState) : genState * option error :=
  let st := fprint (Response resp) st in
  if Done resp then
    let st := fprint newline st in
    let st := fprintAll (Summary resp) st in
    ({| stderr := stderr st; written := written st;
        summarized := summarized st ++ [(stderr st, resp)];
        printed := printed st; stdout := stdout st;
        gworld := gworld st |}, None)
  else (st, None).

(** The [if writeResponse] block: [inl] is a [continue], [inr] goes on with
    [os.Stderr] set to the response file. *)
Definition openResponse (outDir : string) (pageNum : Z) (st : genState)
  : genState + genState :=
  let '(w1, made) := ensureDir platform (responseDir outDir) (gworld st) in
  match made with
  | Some err => inl (say (FailedToCreateResponseDir err) (withWorld w1 st))
  | None =>
      let '(w2, created) :=
        osCreate platform (responseFilePath outDir pageNum) w1 in
      match created with
      | Some err =>
          inl (say (FailedToCreateResponseFile pageNum err) (withWorld w2 st))
      | None =>
          inr {| stderr := File (responseFilePath outDir pageNum);
                 written := written st; summarized := summarized st;
                 printed := printed st; stdout := stdout st; gworld := w2 |}
      end
  end.

(** The body of [for _, page := range renderedPages]. *)
Definition generatePage (c : @Client URL HTTPClient) (writeResponse : bool)
    (outDir prompt : string) (page : renderedPage) (st : genState)
  : called genState :=
  let st := say (SavedTo (pageNum page) (filePath page)) st in
  let '(w1, read) := ReadFile (filePath page) (gworld st) in
  match read with
  | inl err =>
      Finished (say (FailedToReadFile (pageNum page) err) (withWorld w1 st))
  | inr fb =>
      match (if writeResponse
             then openResponse outDir (pageNum page) (withWorld w1 st)
             else inr (withWorld w1 st)) with
      | inl st => Finished st
      | inr st =>
          let requestGen :=
            {| Model := ModelDefault; Prompt := prompt; Images := [fb];
               System := systemPrompt; Options := DefaultOptions |} in
          let st := say (UserPrompt (Prompt requestGen)) st in
          let st := say (SystemPrompt (System requestGen)) st in
          let st := say ResponseFollows st in
          let st := if writeResponse then say ResponseWrittenToFile st else st in
          let '(w2, t) := exchange requestGen (gworld st) in
          match Client_Generate unmarshalError unmarshalEvent c (delivered t)
                  funcResp (withWorld w2 st) with
          | NilURL => NilURL
          | Finished (st, _, Some err) =>
              Finished (say (FailedToGenerate (pageNum page) err) st)
          | Finished (st, _, None) =>
              Finished
                {| stderr := stderr st; written := written st;
                   summarized := summarized st; printed := printed st;
                   stdout := stdout st ++ [newline]; gworld := gworld st |}
          end
      end
  end.

Fixpoint generateLoop (c : @Client URL HTTPClient) (writeResponse : bool)
    (outDir prompt : string) (pages : list renderedPage) (st : genState)
  : called genState :=
  match pages with
  | [] => Finished st
  | page :: rest =>
      match generatePage c writeResponse outDir prompt page st with
      | NilURL => NilURL
      | Finished st => generateLoop c writeResponse outDir prompt rest st
      end
  end.

(** From [uniai.NewClient] to the end of [Run]; [apiBaseURL] and [apiAuth]
    are what [os.Getenv] gives for API_BASEURL and API_AUTH. *)
Variable urlParse : string -> error + URL.
Variable DefaultClient : HTTPClient.

Definition generateAll (apiBaseURL apiAuth : string) (writeResponse : bool)
    (outDir prompt : string) (pages : list renderedPage) (st : genState)
  : called genState :=
  match NewClient urlParse DefaultClient apiBaseURL None apiAuth with
  | inl err => Finished (say (FailedToInitialize err) st)
  | inr c => generateLoop c writeResponse outDir prompt pages st
  end.

End Generate.

End cmd_generate.


(** ** Vocabulary of the further properties *)

Module props.

Import uniai cmd spec.

(** An event decoder and a callback to run [Generate] on: a line that
    starts with a question mark does not decode, every other line is its
    own event; the callback keeps the events it has seen. *)
Definition demoUnmarshalEvent (bts : string) : error + string :=
  match bts with
  | String "?" _ => inl (errorString "bad event")
  | _ => inr bts
  end.

(** A probe decoder that also fails: a line that starts with a question
    mark is no JSON, every other line is read as by [demoUnmarshalError]. *)
Definition demoProbe (bts : string) : error + string :=
  match bts with
  | String "?" _ => inl (errorString "bad line")
  | _ => demoUnmarshalError bts
  end.

Definition demoEventHandler : string -> list string -> list string * option error :=
  fun event seen => (seen ++ [event], None).

(** The callback [Generate] hands to [stream]: decode the line, then call
    the caller's [fn]. *)
Definition decoding {S Event : Type} (unmarshalEvent : string -> error + Event)
    (fn : Event -> S -> S * option error) : @handler S :=
  fun bts st =>
    match unmarshalEvent bts with
    | inl err => (st, Some err)
    | inr resp => fn resp st
    end.

(** A URL parser, a server and decoders to run the client on: a URL is
    its text and must hold no blank; the server answers every request with
    one status and body; an error body decodes when it starts with a
    brace; a version body is copied into the field and is complete when it
    ends with a brace. *)
Definition demoParse (raw : string) : error + string :=
  if strings.Contains raw " " then inl (errorString "invalid character in URL")
  else inr raw.

Definition demoServer (code : Z) (body : string)
  : unit -> @uniai_client.Request string -> error + uniai_client.Answer :=
  fun _ _ => inr {| uniai_client.AnswerCode := code;
                    uniai_client.ReadAll := inr body |}.

Definition demoStatusDecode (body : string) (e : uniai_client.StatusErrorValue)
  : uniai_client.StatusErrorValue * option error :=
  match body with
  | String "{" _ =>
      ({| uniai_client.seStatusCode := uniai_client.seStatusCode e;
          uniai_client.seStatus := uniai_client.seStatus e;
          uniai_client.seErrorMessage := "decoded" |}, None)
  | _ => (e, Some (errorString "invalid character"))
  end.

Definition demoVersionDecode (body : string) (field : string)
  : string * option error :=
  (body, if strings.HasSuffix body "}" then None
         else Some (errorString "unexpected end of JSON input")).

(** [do] got [respObj] with the readable body [body] from the server. *)
Definition answered {URL HTTPClient : Type} (JoinPath : URL -> string -> URL)
    (userAgent : string) (newRequestError : string -> URL -> option error)
    (Do : HTTPClient -> @uniai_client.Request URL -> error + uniai_client.Answer)
    (c : @uniai_client.Client URL HTTPClient) (method path : string)
    (data : uniai_client.reqData) (respObj : uniai_client.Answer)
    (body : string) : Prop :=
  exists base reqBody,
    uniai_client.reqBodyOf data = inr reqBody /\
    uniai_client.baseURL c = Some base /\
    newRequestError method (JoinPath base path) = None /\
    Do (uniai_client.client c)
       (uniai_client.requestOf userAgent c method (JoinPath base path) reqBody)
    = inr respObj /\
    uniai_client.ReadAll respObj = inr body.

(** The pages the generation loop announced, in order. *)
Definition saved (ls : list cmd_generate.line) : list (Z * string) :=
  omap (fun l => match l with
                 | cmd_generate.SavedTo n f => Some (n, f)
                 | _ => None
                 end) ls.

(** What [funcResp] writes to the sink [k] for a run of events: each delta,
    and after an event that is done a line break and the summary. *)
Definition deltas {Event : Type} (Response : Event -> string)
    (Done : Event -> bool) (Summary : Event -> list string)
    (k : cmd_generate.sink) (events : list Event)
  : list (cmd_generate.sink * string) :=
  flat_map (fun e => (k, Response e) ::
                     if Done e
                     then (k, cmd_generate.newline) :: (pair k <$> Summary e)
                     else [])
           events.

(** From [st] to [s] only the callback was at work, with [os.Stderr] at
    [k]: the sink is unchanged, nothing was printed, and what was written
    went to [k]. *)
Definition wrote {O Event : Type} (k : cmd_generate.sink)
    (st s : @cmd_generate.genState O Event) : Prop :=
  cmd_generate.stderr st = k /\ cmd_generate.stderr s = k /\
  cmd_generate.printed s = cmd_generate.printed st /\
  cmd_generate.stdout s = cmd_generate.stdout st /\
  exists new,
    cmd_generate.written s = cmd_generate.written st ++ new /\
    Forall (fun e => e.1 = k) new.

(** A file system and a service to run the generation loop on: the file
    without a name cannot be read, any other file holds its own name; the
    service answers every request with the lines [a] and [b]; an event is
    its line, and [b] is the last one. *)
Definition demoReadFile (path : string) (w : list string)
  : list string * (error + string) :=
  (w, if decide (path = EmptyString) then inl (errorString "no such file")
      else inr path).

Definition demoExchange (req : cmd_generate.GenerateRequest) (w : list string)
  : list string * uniai.wire :=
  (w, demoWire 200 (bufio.ndjson ["a"; "b"])).

Definition demoDone (event : string) : bool := bool_decide (event = "b").

Definition demoSummary (event : string) : list string := ["done: " +:+ event].

Definition demoGenState : @cmd_generate.genState (list string) string :=
  {| cmd_generate.stderr := cmd_generate.Terminal;
     cmd_generate.written := []; cmd_generate.summarized := [];
     cmd_generate.printed := []; cmd_generate.stdout := [];
     cmd_generate.gworld := [] |}.

Definition demoSlots : list cmd.renderedPage :=
  [{| cmd.pageNum := 1; cmd.filePath := "out/page_1.jpg" |}; cmd.emptySlot].

Definition demoClient : @uniai_client.Client string unit :=
  {| uniai_client.client := tt; uniai_client.baseURL := Some "http://host";
     uniai_client.authBasic := "dXNlcjpwYXNz" |}.

(** [m] is a line the page loop may print for the requested page [q]. *)
Definition reports (numPages : Z) (dir : string) (q : Z) (m : message) : Prop :=
  if decide (q < 1 \/ q > numPages) then m = PageOutOfRange q
  else (exists err, m = FailedToGetPage err) \/
       (exists err, m = FailedToRenderPage err) \/
       m = RenderedPage q (pagePath dir q).

Section Turns.

Context {O Page Image : Type} (platform : Platform O Page Image).

(** [m] is reached from [m0] in exactly [n] turns. *)
Inductive reachableIn (numPages : Z) (dir : string) (m0 : @machine O)
  : nat -> @machine O -> Prop :=
| reachableIn_start : reachableIn numPages dir m0 0 m0
| reachableIn_step n m m' :
    reachableIn numPages dir m0 n m -> step platform numPages dir m m' ->
    reachableIn numPages dir m0 (S n) m'.

End Turns.

(** The turns a worker at [pc] still has to take. *)
Definition turnsLeft (pc : workerPc) : nat :=
  match pc with AtBody => 3 | AtRelease => 2 | AtDone => 1 | Exited => 0 end.

(** An upper bound on the turns left to the whole loop: six per page the
    main goroutine has not dealt with (less what it has done for the one in
    hand), the turns of the workers, and the final [wg.Wait()]. *)
Definition turnsBound {O : Type} (m : @machine O) : nat :=
  (match main m with
   | AtLoop rest => 6 * length rest + 1
   | AtAcquire _ rest => 6 * length rest + 5 + 1
   | AtGo _ rest => 6 * length rest + 4 + 1
   | Joined | Crashed _ => 0
   end
   + list_sum (turnsLeft <$> (workers m).*2))%nat.

End props.

(** ** Facts about the library models *)

Section StringFacts.

Import strconv strings.

Lemma Contains_app s t c :
  Contains (s +:+ t) c = Contains s c || Contains t c.
Proof.
  induction s as [|a s IH]; simpl; [done|].
  rewrite IH. by destruct (bool_decide (a = c)).
Qed.

Lemma Split_no_sep s c : Contains s c = false -> Split s c = [s].
Proof.
  induction s as [|a s IH]; simpl; [done|].
  intros [Ha Hs]%orb_false_elim. rewrite Ha, (IH Hs). done.
Qed.

Lemma Split_app_sep s t c :
  Contains s c = false -> Split (s +:+ String c t) c = s :: Split t c.
Proof.
  induction s as [|a s IH]; simpl.
  - intros _. by rewrite bool_decide_eq_true_2.
  - intros [Ha Hs]%orb_false_elim. rewrite Ha, (IH Hs). done.
Qed.

Lemma Split_length_sep s c :
  Contains s c = true -> (2 <= length (Split s c))%nat.
Proof.
  induction s as [|a s IH]; simpl; [done|].
  destruct (bool_decide (a = c)) eqn:Ha; simpl.
  - intros _. destruct s; simpl; [lia|].
    repeat case_match; simpl; lia.
  - intros Hs. specialize (IH Hs).
    destruct (Split s c) as [|h t]; simpl in *; lia.
Qed.

Lemma Split_nonempty s c : Split s c <> [].
Proof. destruct s; simpl; repeat case_match; done. Qed.

Lemma Split_pair_sep s c p0 p1 :
  Split s c = [p0; p1] -> Contains s c = true.
Proof.
  intros H. destruct (Contains s c) eqn:E; [done|].
  rewrite (Split_no_sep _ _ E) in H. done.
Qed.

(** Names the string left after the optional sign in [Atoi]. *)
Ltac name_digits a s d :=
  match goal with
  | |- context [if ?b then s else String a s] =>
      set (d := if b then s else String a s)
  end.

Lemma parseDigits_digits s acc v :
  parseDigits s acc = Some v -> forall c, isDigit c = false -> Contains s c = false.
Proof.
  revert acc. induction s as [|a s IH]; simpl; intros acc H c Hc; [done|].
  destruct (isDigit a) eqn:Ha; [|done].
  rewrite (IH _ H c Hc), orb_false_r.
  apply bool_decide_eq_false. intros ->. congruence.
Qed.

Lemma Atoi_no_comma s v : Atoi s = Some v -> Contains s "," = false.
Proof.
  unfold Atoi. destruct s as [|a s]; [done|].
  name_digits a s digits.
  assert (Contains digits "," = false -> Contains (String a s) "," = false)
    as Hd.
  { subst digits.
    destruct (bool_decide (a = "-"%char)) eqn:E1;
      [|destruct (bool_decide (a = "+"%char)) eqn:E2]; simpl; try done.
    - apply bool_decide_eq_true in E1 as ->. done.
    - apply bool_decide_eq_true in E2 as ->. done. }
  destruct digits as [|b d]; [done|].
  destruct (parseDigits (String b d) 0) eqn:P; [|done]. intros _.
  apply Hd. exact (parseDigits_digits _ _ _ P ","%char eq_refl).
Qed.

Lemma parseDigits_lower s acc v :
  parseDigits s acc = Some v -> 0 <= acc -> 0 <= v.
Proof.
  revert acc. induction s as [|a s IH]; simpl; intros acc H Hacc.
  - congruence.
  - destruct (isDigit a) eqn:Ha; [|done].
    apply (IH _ H). unfold isDigit in Ha. unfold digitVal.
    apply andb_true_iff in Ha as [H1%Nat.leb_le H2]. lia.
Qed.

Lemma Atoi_range s v : Atoi s = Some v -> minInt <= v <= maxInt.
Proof.
  unfold Atoi. destruct s as [|a s]; [done|].
  name_digits a s digits.
  destruct digits as [|b d] eqn:D; [done|].
  destruct (parseDigits (String b d) 0) as [un|] eqn:P; [|done].
  pose proof (parseDigits_lower _ _ _ P ltac:(lia)) as Hun.
  unfold maxInt, minInt, intSize in *. simpl in *.
  destruct (bool_decide (a = "-"%char)).
  - destruct (un <=? _) eqn:L; [|done]. apply Z.leb_le in L.
    intros [= <-]. lia.
  - destruct (un <=? _) eqn:L; [|done]. apply Z.leb_le in L.
    intros [= <-]. lia.
Qed.

Lemma wrap_id z : minInt <= z <= maxInt -> wrap z = z.
Proof.
  unfold wrap, minInt, maxInt, intSize. simpl. intros H.
  rewrite Z.mod_small; lia.
Qed.

Lemma wrap_range z : minInt <= wrap z <= maxInt.
Proof.
  unfold wrap.
  assert (0 < 2 ^ intSize) as Hpos by (unfold intSize; lia).
  pose proof (Z.mod_pos_bound (z - minInt) (2 ^ intSize) Hpos) as Hb.
  revert Hb. generalize ((z - minInt) mod 2 ^ intSize).
  unfold minInt, maxInt, intSize. simpl. intros; lia.
Qed.

End StringFacts.

(** ** ParsePageRange *)

Section ParsePageRangeFacts.

Import strconv strings cli.

Lemma Split_pair_inv s c p0 p1 :
  Split s c = [p0; p1] ->
  s = p0 +:+ String c p1 /\ Contains p0 c = false /\ Contains p1 c = false.
Proof.
  revert p0. induction s as [|a s IH]; simpl; intros p0; [done|].
  destruct (bool_decide (a = c)) eqn:Ha.
  - apply bool_decide_eq_true in Ha as ->. intros [= <- Hs].
    destruct (Contains s c) eqn:E.
    + pose proof (Split_length_sep _ _ E) as Hl. rewrite Hs in Hl.
      simpl in Hl. lia.
    + rewrite (Split_no_sep _ _ E) in Hs. injection Hs as ->. done.
  - destruct (Split s c) as [|h t] eqn:Hs; [done|].
    intros [= <- ->]. destruct (IH h eq_refl) as (-> & H0 & H1).
    simpl. rewrite Ha, H0. done.
Qed.

(** The loop returns the ascending run [a .. b] when [b] is not the
    largest [int]. *)
Lemma rangeLoop_returns fuel a b acc :
  minInt <= a -> a <= b + 1 -> b < maxInt ->
  (Z.to_nat (b + 1 - a) < fuel)%nat ->
  rangeLoop fuel a b acc = Returned (acc ++ seqZ a (b + 1 - a)).
Proof.
  revert a acc. induction fuel as [|fuel IH]; intros a acc Ha Hab Hb Hf;
    [lia|]. simpl.
  destruct (a <=? b) eqn:E.
  - apply Z.leb_le in E.
    rewrite wrap_id by lia. rewrite IH by lia.
    rewrite (seqZ_cons a) by lia. rewrite <- app_assoc. simpl.
    replace (Z.succ a) with (a + 1) by lia.
    replace (Z.pred (b + 1 - a)) with (b + 1 - (a + 1)) by lia. done.
  - apply Z.leb_gt in E. rewrite seqZ_nil by lia. by rewrite app_nil_r.
Qed.

(** With [end = maxInt] the condition [i <= end] never fails: [i++]
    wraps round to [minInt]. *)
Lemma rangeLoop_maxInt fuel i acc :
  i <= maxInt -> rangeLoop fuel i maxInt acc = OutOfFuel.
Proof.
  revert i acc. induction fuel as [|fuel IH]; intros i acc Hi; [done|].
  simpl. rewrite (proj2 (Z.leb_le _ _) Hi).
  apply IH. apply wrap_range.
Qed.

(** An expression with exactly one dash and an integer on each side runs
    the range loop and nothing else. *)
Lemma ParsePageRange_dash_form fuel s p0 p1 a b :
  Split s "-" = [p0; p1] -> Atoi p0 = Some a -> Atoi p1 = Some b ->
  ParsePageRange fuel s =
    (pageNumbers ← rangeLoop fuel a b []; Returned (pageNumbers, None)).
Proof.
  intros Hs Ha Hb.
  destruct (Split_pair_inv _ _ _ _ Hs) as (Heq & _ & _).
  unfold ParsePageRange, dashBlock.
  rewrite (Split_pair_sep _ _ _ _ Hs), Hs.
  destruct (decide (s = EmptyString)) as [->|_]; [done|].
  simpl. rewrite Ha, Hb.
  destruct (rangeLoop fuel a b []) as [l| |]; simpl; try done.
  rewrite Heq, Contains_app. simpl.
  rewrite (Atoi_no_comma _ _ Ha), (Atoi_no_comma _ _ Hb). done.
Qed.

(** X1.  An expression that splits at its dash into two integers
    [start <= end], with [end] below the largest [int], yields exactly
    [start, start+1, .., end] and no error, once the fuel covers the loop. *)
Lemma ParsePageRange_dash_range fuel s p0 p1 a b :
  Split s "-" = [p0; p1] -> Atoi p0 = Some a -> Atoi p1 = Some b ->
  a <= b -> b < maxInt -> (Z.to_nat (b - a) + 1 < fuel)%nat ->
  ParsePageRange fuel s = Returned (seqZ a (b - a + 1), None).
Proof.
  intros Hs Ha Hb Hab Hmax Hf.
  rewrite (ParsePageRange_dash_form _ _ _ _ _ _ Hs Ha Hb).
  pose proof (Atoi_range _ _ Ha).
  rewrite rangeLoop_returns by lia. simpl.
  replace (b + 1 - a) with (b - a + 1) by lia. done.
Qed.

(** A dash expression that does not split into two parts is rejected,
    and the message carries the whole expression. *)
Lemma ParsePageRange_dash_parts fuel s :
  Contains s "-" = true -> length (Split s "-") <> 2%nat ->
  ParsePageRange fuel s =
    Returned ([], Some (Errorf "invalid page range format: " s)).
Proof.
  intros Hc Hl. unfold ParsePageRange, dashBlock. rewrite Hc.
  destruct (decide (s = EmptyString)) as [->|_]; [done|].
  destruct (decide _); [done|contradiction].
Qed.

Lemma ParsePageRange_dash_start fuel s p0 p1 :
  Split s "-" = [p0; p1] -> Atoi p0 = None ->
  ParsePageRange fuel s = Returned ([], Some (Errorf "invalid start page: " p0)).
Proof.
  intros Hs Ha. unfold ParsePageRange, dashBlock.
  rewrite (Split_pair_sep _ _ _ _ Hs), Hs.
  destruct (decide (s = EmptyString)) as [->|_]; [done|].
  simpl. by rewrite Ha.
Qed.

Lemma ParsePageRange_dash_end fuel s p0 p1 a :
  Split s "-" = [p0; p1] -> Atoi p0 = Some a -> Atoi p1 = None ->
  ParsePageRange fuel s = Returned ([], Some (Errorf "invalid end page: " p1)).
Proof.
  intros Hs Ha Hb. unfold ParsePageRange, dashBlock.
  rewrite (Split_pair_sep _ _ _ _ Hs), Hs.
  destruct (decide (s = EmptyString)) as [->|_]; [done|].
  simpl. by rewrite Ha, Hb.
Qed.

End ParsePageRangeFacts.

Section ParsePageRangeClaims.

Import strconv strings cli cmd.

(** Without a dash the first block leaves [pageNumbers] nil. *)
Lemma dashBlock_no_dash fuel s :
  Contains s "-" = false -> dashBlock fuel s = Returned (inr []).
Proof. intros H. unfold dashBlock. by rewrite H. Qed.

(** C1.  A comma expression without a dash, such as 1,2,3, does not yield
    its numbers: the slice is made with length 0 and the store into
    [pageNumbers[0]] panics with an index out of range, whatever the
    tokens are. *)
Theorem ParsePageRange_comma_panics fuel s :
  Contains s "," = true -> Contains s "-" = false ->
  ParsePageRange fuel s = Panicked (IndexOutOfRange 0 0).
Proof.
  intros Hc Hd. unfold ParsePageRange.
  destruct (decide (s = EmptyString)) as [->|_]; [done|].
  rewrite dashBlock_no_dash by done. simpl. rewrite Hc.
  pose proof (Split_nonempty s ","%char) as Hne.
  destruct (Split s ",") as [|r rest]; [done|]. reflexivity.
Qed.

Lemma ParsePageRange_comma_panics_witness :
  Contains "1,2,3" "," = true /\ Contains "1,2,3" "-" = false /\
  ParsePageRange 10 "1,2,3" = Panicked (IndexOutOfRange 0 0).
Proof.
  split; [reflexivity|]. split; [reflexivity|].
  apply (ParsePageRange_comma_panics 10 "1,2,3"); reflexivity.
Defined.


(** C2.  Of the three malformed inputs, 1- and 1-2-3 are rejected with a
    parse error, but abc, which has neither a dash nor a comma, falls
    through both blocks: the result is the nil slice and no error. *)
Theorem ParsePageRange_malformed_inputs fuel :
  ParsePageRange fuel "abc" = Returned ([], None) /\
  ParsePageRange fuel "1-" = Returned ([], Some (Errorf "invalid end page: " "")) /\
  ParsePageRange fuel "1-2-3"
    = Returned ([], Some (Errorf "invalid page range format: " "1-2-3")).
Proof. repeat split; reflexivity. Qed.

(** C7.  On the dash expression whose end is the largest [int], the loop
    condition [i <= end] holds for every [i], [i++] wraps round, and the
    call never returns: no amount of fuel yields a result. *)
Theorem ParsePageRange_dash_maxInt_never_returns fuel :
  ParsePageRange fuel "9223372036854775807-9223372036854775807" = OutOfFuel.
Proof.
  rewrite (ParsePageRange_dash_form fuel _
             "9223372036854775807" "9223372036854775807" maxInt maxInt)
    by reflexivity.
  by rewrite rangeLoop_maxInt.
Qed.

(** C10.  A non-empty selector with neither a dash nor a comma, a single
    page number included, parses to the empty list without an error; the
    command cannot tell it from a missing selector and takes every page
    of the document. *)
Theorem ParsePageRange_single_token_selects_all s :
  s <> EmptyString -> Contains s "-" = false -> Contains s "," = false ->
  (forall fuel, ParsePageRange fuel s = Returned ([], None)) /\
  (forall fuel numPages,
      selectPages fuel s numPages = selectPages fuel EmptyString numPages) /\
  (forall fuel numPages,
      0 <= numPages < maxInt -> (Z.to_nat numPages < fuel)%nat ->
      selectPages fuel s numPages = Returned (inr (seqZ 1 numPages))).
Proof.
  intros Hne Hd Hc.
  assert (forall fuel, ParsePageRange fuel s = Returned ([], None)) as Hp.
  { intros fuel. unfold ParsePageRange.
    destruct (decide (s = EmptyString)); [done|].
    rewrite dashBlock_no_dash by done. simpl. by rewrite Hc. }
  split; [exact Hp|]. split.
  - intros fuel numPages. unfold selectPages.
    destruct (decide (s <> EmptyString)); [|done]. by rewrite Hp.
  - intros fuel numPages Hn Hf. unfold selectPages.
    destruct (decide (s <> EmptyString)); [|done]. rewrite Hp. simpl.
    rewrite rangeLoop_returns; unfold minInt, intSize in *; simpl; try lia.
    simpl. do 3 f_equal. lia.
Qed.

Lemma ParsePageRange_single_token_selects_all_witness :
  ParsePageRange 0 "5" = Returned ([], None) /\
  selectPages 4 "5" 3 = Returned (inr [1; 2; 3]).
Proof.
  destruct (ParsePageRange_single_token_selects_all "5") as (Hp & _ & Hs);
    [discriminate|reflexivity|reflexivity|].
  split; [apply Hp|].
  apply (Hs 4%nat 3); [unfold maxInt, intSize; simpl; lia|simpl; lia].
Defined.

End ParsePageRangeClaims.

(** ** The streaming client *)

Section StreamClaims.

Import uniai spec.

Context {S : Type} (unmarshalError : string -> error + string).

Local Abbreviation scanLoop := (scanLoop unmarshalError).
Local Abbreviation stream := (stream unmarshalError).

Lemma stream_responded t hasData response fn (st : S) :
  responded t hasData response ->
  stream t hasData fn st = scanLoop response fn (Body response) st.
Proof. intros (Hm & Hn & Hd). unfold uniai.stream. by rewrite Hm, Hn, Hd. Qed.

(** A scan that ends without an error has handed every line to the
    callback, and saw a status below 400 if there was a line at all. *)
Lemma scanLoop_nil_result response fn lines (st st' : S) calls :
  scanLoop response fn lines st = (st', calls, None) ->
  calls = lines /\ handleAll fn lines st = Some st' /\
  (lines <> [] -> StatusCode response < StatusBadRequest).
Proof.
  revert st calls. induction lines as [|bts rest IH]; simpl; intros st calls.
  - intros [= <- <-]. done.
  - destruct (unmarshalError bts) as [e|text]; [done|].
    destruct (decide (text <> EmptyString)); [done|].
    destruct (decide (StatusCode response >= StatusBadRequest)); [done|].
    destruct (fn bts st) as [st1 [e|]]; [done|].
    destruct (uniai.scanLoop _ response fn rest st1) as [[st2 calls2] r] eqn:E.
    simpl. intros [= <- <- ->].
    destruct (IH _ _ E) as (-> & Hh & _). repeat split; [done|lia].
Qed.

(** Lines that went through do not change what happens at the next one. *)
Lemma scanLoop_app response fn pre post (st st' : S) calls :
  scanLoop response fn pre st = (st', calls, None) ->
  scanLoop response fn (pre ++ post) st =
    let '(st'', calls', r) := scanLoop response fn post st' in
    (st'', pre ++ calls', r).
Proof.
  revert st calls. induction pre as [|bts rest IH]; simpl; intros st calls.
  - intros [= <- <-]. by destruct (uniai.scanLoop _ response fn post st) as [[??]?].
  - destruct (unmarshalError bts) as [e|text]; [done|].
    destruct (decide (text <> EmptyString)); [done|].
    destruct (decide (StatusCode response >= StatusBadRequest)); [done|].
    destruct (fn bts st) as [st1 [e|]]; [done|].
    destruct (uniai.scanLoop _ response fn rest st1) as [[st2 calls2] r] eqn:E.
    simpl. intros [= <- <- ->]. rewrite (IH _ _ E).
    by destruct (uniai.scanLoop _ response fn post st2) as [[??]?].
Qed.

(** C3.  When the scan reaches a line whose decoded [error] field is not
    empty, [stream] returns that text as its error, whatever the status
    code: the callback has seen the lines before it and sees neither this
    line nor a later one. *)
Theorem stream_error_line_aborts t hasData response fn pre bts post text
    (st st' : S) calls :
  responded t hasData response ->
  Body response = pre ++ bts :: post ->
  unmarshalError bts = inr text -> text <> EmptyString ->
  scanLoop response fn pre st = (st', calls, None) ->
  stream t hasData fn st = (st', pre, Some (errorString text)).
Proof.
  intros Hr Hb Hu Ht Hpre.
  rewrite (stream_responded _ _ _ _ _ Hr), Hb.
  rewrite (scanLoop_app _ _ _ _ _ _ _ Hpre). simpl. rewrite Hu.
  destruct (decide (text <> EmptyString)); [|done].
  by rewrite app_nil_r.
Qed.

(** C9.  An answer with a status of 400 or more and no line at all goes
    through [stream] like an empty success: nil is returned, the callback
    is not invoked and no [StatusError] is built. *)
Theorem stream_error_status_empty_body t hasData response fn (st : S) :
  responded t hasData response ->
  StatusCode response >= StatusBadRequest -> Body response = [] ->
  stream t hasData fn st = (st, [], None).
Proof.
  intros Hr _ Hb. by rewrite (stream_responded _ _ _ _ _ Hr), Hb.
Qed.

(** The scan loop when every line decodes with an empty [error] field and
    the status is below 400: it follows the callback. *)
Lemma scanLoop_plain_all response fn lines (st st' : S) :
  StatusCode response < StatusBadRequest ->
  Forall (fun bts => unmarshalError bts = inr EmptyString) lines ->
  handleAll fn lines st = Some st' ->
  scanLoop response fn lines st = (st', lines, None).
Proof.
  intros Hs Hl. revert st. induction Hl as [|bts rest Hb _ IH]; simpl; intros st.
  - by intros [= ->].
  - rewrite Hb.
    destruct (decide (EmptyString <> EmptyString)); [done|].
    destruct (decide (StatusCode response >= StatusBadRequest)); [lia|].
    destruct (fn bts st) as [st1 [e|]]; [done|].
    intros H. by rewrite (IH _ H).
Qed.

(** When every line the scanner delivers decodes with an empty [error]
    field and the status is below 400: if the callback accepts all of
    them it has been invoked on exactly these lines in order and [stream]
    returns nil; if it refuses one, [stream] returns the callback's error
    and the callback has seen the lines up to that one and no later
    line. *)
Lemma stream_plain_tokens t hasData response fn :
  responded t hasData response ->
  StatusCode response < StatusBadRequest ->
  Forall (fun bts => unmarshalError bts = inr EmptyString) (Body response) ->
  (forall st st' : S,
      handleAll fn (Body response) st = Some st' ->
      stream t hasData fn st = (st', Body response, None)) /\
  (forall (st st1 st2 : S) pre bts post err,
      Body response = pre ++ bts :: post ->
      handleAll fn pre st = Some st1 ->
      fn bts st1 = (st2, Some err) ->
      stream t hasData fn st = (st2, pre ++ [bts], Some err)).
Proof.
  intros Hr Hs Hl. split.
  - intros st st' Hh. rewrite (stream_responded _ _ _ _ _ Hr).
    by apply scanLoop_plain_all.
  - intros st st1 st2 pre bts post err Hb Hh Hf.
    rewrite (stream_responded _ _ _ _ _ Hr). rewrite Hb in Hl |- *.
    apply Forall_app in Hl as [Hpre Hpost].
    apply Forall_cons in Hpost as [Hbts _].
    rewrite (scanLoop_app _ _ _ _ _ _ pre (scanLoop_plain_all _ _ _ _ _ Hs Hpre Hh)).
    simpl. rewrite Hbts.
    destruct (decide (EmptyString <> EmptyString)); [done|].
    destruct (decide (StatusCode response >= StatusBadRequest)); [lia|].
    by rewrite Hf.
Qed.

End StreamClaims.

Section StreamRuns.

Import uniai spec.

Lemma stream_error_line_aborts_witness :
  stream demoUnmarshalError
    (demoTransport 200 ["one"; "!quota exceeded"; "three"]) true demoHandler 0%nat
  = (1%nat, ["one"], Some (errorString "quota exceeded")).
Proof.
  apply (stream_error_line_aborts demoUnmarshalError
           (demoTransport 200 ["one"; "!quota exceeded"; "three"]) true
           {| StatusCode := 200; Status := "status";
              Body := ["one"; "!quota exceeded"; "three"] |}
           demoHandler ["one"] "!quota exceeded" ["three"] "quota exceeded"
           0%nat 1%nat ["one"]).
  - repeat split.
  - reflexivity.
  - reflexivity.
  - discriminate.
  - reflexivity.
Defined.

(** The same on the first line of an answer with status 500: the text of
    the line is returned, not a [StatusError]. *)
Example stream_error_line_status_500 :
  stream demoUnmarshalError (demoTransport 500 ["!quota exceeded"; "two"])
    true demoHandler 0%nat
  = (0%nat, [], Some (errorString "quota exceeded")).
Proof. reflexivity. Qed.

Lemma stream_error_status_empty_body_witness :
  stream demoUnmarshalError (demoTransport 500 []) true demoHandler 0%nat
  = (0%nat, [], None).
Proof.
  apply (stream_error_status_empty_body demoUnmarshalError
           (demoTransport 500 []) true
           {| StatusCode := 500; Status := "status"; Body := [] |}).
  - repeat split.
  - unfold StatusBadRequest. simpl. lia.
  - reflexivity.
Defined.

(** [Generate] and [Chat] are [stream] on the decoding callback: when
    every line decodes into an event, the caller's [fn] sees the events of
    the lines the callback was invoked on. *)
Lemma Generate_decoded {S Event : Type} unmarshalError
    (decode : string -> Event) (t : transport)
    (fn : Event -> S -> S * option error) (st : S) :
  Generate unmarshalError Event (fun bts => inr (decode bts)) t fn st
  = stream unmarshalError t true (fun bts => fn (decode bts)) st.
Proof. reflexivity. Qed.

Lemma Chat_decoded {S Event : Type} unmarshalError
    (decode : string -> Event) (t : transport)
    (fn : Event -> S -> S * option error) (st : S) :
  Chat unmarshalError Event (fun bts => inr (decode bts)) t fn st
  = stream unmarshalError t true (fun bts => fn (decode bts)) st.
Proof. reflexivity. Qed.

End StreamRuns.

(** ** The page loop *)

Section SchedulerFacts.

Import cli cmd spec.

Context {O Page Image : Type} (platform : Platform O Page Image).

Local Abbreviation renderInto := (renderInto platform).
Local Abbreviation sequentialLoop := (sequentialLoop platform).
Local Abbreviation store := (@store O).
Local Abbreviation machine := (@machine O).

(** [RenderPdfPage] returns the path it wrote to: the directory it was
    handed and the file name of the page. *)
Lemma RenderPdfPage_path pageNumber page dir (w w' : O) out :
  RenderPdfPage platform pageNumber page dir w = (w', (out, None)) ->
  out = pagePath dir pageNumber.
Proof.
  unfold RenderPdfPage. destruct page as [pg|]; [|done].
  destruct (deviceRender platform pg w) as [w1 [e|img]]; [done|].
  destruct (osCreate platform _ w1) as [w2 [e|]]; [done|].
  destruct (jpegEncode platform _ img w2) as [w3 [e|]]; [done|].
  by intros [= _ <-].
Qed.

(** The shared body returns with one of the three effects, or panics on a
    slot index out of range. *)
Lemma renderInto_cases dir p (s : store) :
  (exists s', renderInto dir p s = Returned s' /\ bodyEffect dir p s s') \/
  (exists pn, renderInto dir p s = Panicked pn /\
              ~ 0 <= p - 1 < Z.of_nat (length (renderedPages s))).
Proof.
  unfold cmd.renderInto.
  destruct (GetPage platform p (world s)) as [w1 [page [e|]]].
  { left. eexists. split; [done|]. constructor. }
  destruct (RenderPdfPage platform p page dir w1) as [w2 [out [e|]]] eqn:R.
  { left. eexists. split; [done|]. constructor. }
  apply RenderPdfPage_path in R as ->.
  unfold setSlot. destruct (decide _) as [Hin|Hout].
  - left. eexists. split; [done|]. by apply (effect_rendered dir p s w2).
  - right. eexists. split; [done|]. done.
Qed.

Lemma println_slotsOK numPages dir m (s : store) (w : O) :
  slotsOK numPages dir s ->
  (forall p out, m <> RenderedPage p out) ->
  (forall q, m = PageOutOfRange q -> q < 1 \/ q > numPages) ->
  slotsOK numPages dir (println m s w).
Proof.
  intros [Hl Hf Hr Hw] Hm Hq. split; simpl.
  - done.
  - intros i slot Hi Hne. destruct (Hf i slot Hi Hne) as [-> Hin].
    split; [done|]. apply elem_of_app. by left.
  - intros p out [Hin|Hin%list_elem_of_singleton]%elem_of_app.
    + by apply Hr.
    + by destruct (Hm p out).
  - intros q [Hin|Hin%list_elem_of_singleton]%elem_of_app.
    + by apply Hw.
    + by apply Hq.
Qed.

Lemma bodyEffect_slotsOK numPages dir p (s s' : store) :
  slotsOK numPages dir s -> 1 <= p <= numPages ->
  bodyEffect dir p s s' -> slotsOK numPages dir s'.
Proof.
  intros Hok Hp [err w|err w|w Hin].
  - apply println_slotsOK; [done|done|done].
  - apply println_slotsOK; [done|done|done].
  - destruct Hok as [Hl Hf Hr Hw]. split; simpl.
    + by rewrite length_insert.
    + intros i slot Hi Hne.
      destruct (decide (i = Z.to_nat (p - 1))) as [->|Hd].
      * rewrite list_lookup_insert_eq in Hi by lia. injection Hi as <-.
        replace (Z.of_nat (Z.to_nat (p - 1)) + 1) with p by lia.
        split; [done|]. apply elem_of_app. right. by apply list_elem_of_singleton.
      * rewrite list_lookup_insert_ne in Hi by done.
        destruct (Hf i slot Hi Hne) as [-> Hc]. split; [done|].
        apply elem_of_app. by left.
    + intros q out [Hc|Hc%list_elem_of_singleton]%elem_of_app.
      * destruct (Hr q out Hc) as (Hq & -> & Hs). repeat split; try lia.
        destruct (decide (q = p)) as [->|Hd].
        -- rewrite list_lookup_insert_eq by lia. done.
        -- rewrite list_lookup_insert_ne by lia. done.
      * injection Hc as -> ->. repeat split; try lia.
        rewrite list_lookup_insert_eq by lia. done.
    + intros q [Hc|Hc%list_elem_of_singleton]%elem_of_app; [by apply Hw|done].
Qed.

(** The body prints exactly one line; it is no warning, and if it reports a
    render it is the render of this page. *)
Lemma bodyEffect_console dir p (s s' : store) :
  bodyEffect dir p s s' ->
  exists m, console s' = console s ++ [m] /\
            (forall q, m <> PageOutOfRange q) /\
            (forall q out, m = RenderedPage q out -> q = p).
Proof.
  intros [err w|err w|w Hin]; eexists; (split; [reflexivity|]); split;
    intros; try done. congruence.
Qed.

(** In range, the body does not panic. *)
Lemma renderInto_in_range numPages dir p (s : store) :
  slotsOK numPages dir s -> 1 <= p <= numPages ->
  exists s', renderInto dir p s = Returned s' /\ bodyEffect dir p s s'.
Proof.
  intros Hok Hp. destruct (renderInto_cases dir p s) as [H|(pn & _ & Hout)];
    [done|].
  destruct Hok as [Hl _ _ _]. rewrite Hl in Hout. lia.
Qed.

(** What the sequential loop does to a memory that satisfies the slot
    invariant: it returns, keeps the invariant and the lines printed before,
    prints one line per page, warns about every page out of range and
    renders requested pages only. *)
Lemma sequentialLoop_spec numPages dir pageNumbers (s : store) :
  slotsOK numPages dir s ->
  exists s',
    sequentialLoop numPages dir pageNumbers s = Returned s' /\
    slotsOK numPages dir s' /\
    length (console s') = (length (console s) + length pageNumbers)%nat /\
    (forall m, m ∈ console s -> m ∈ console s') /\
    (forall q, q ∈ pageNumbers -> q < 1 \/ q > numPages ->
               PageOutOfRange q ∈ console s') /\
    (forall p out, RenderedPage p out ∈ console s' ->
                   RenderedPage p out ∈ console s \/ p ∈ pageNumbers).
Proof.
  revert s. induction pageNumbers as [|q rest IH]; intros s Hok; simpl.
  { exists s. split; [done|]. split; [done|]. split; [lia|].
    split; [done|]. split.
    - intros q Hq. by apply elem_of_nil in Hq.
    - intros p out Hp. by left. }
  destruct (decide (q < 1 \/ q > numPages)) as [Hout|Hin].
  - set (s1 := println (PageOutOfRange q) s (world s)).
    assert (slotsOK numPages dir s1) as Hok1.
    { apply println_slotsOK; [done|done|]. by intros ? [= <-]. }
    destruct (IH s1 Hok1) as (s' & Hrun & Hok' & Hlen & Hkeep & Hwarn & Hreq).
    exists s'. split; [done|]. split; [done|]. split; [|split; [|split]].
    + rewrite Hlen. subst s1. simpl. rewrite length_app. simpl. lia.
    + intros m Hm. apply Hkeep. subst s1. simpl. apply elem_of_app. by left.
    + intros q' [->|Hq']%elem_of_cons Hr.
      * apply Hkeep. subst s1. simpl. apply elem_of_app. right.
        by apply list_elem_of_singleton.
      * by apply Hwarn.
    + intros p out Hp. destruct (Hreq p out Hp) as [Hc|Hc].
      * subst s1. simpl in Hc.
        apply elem_of_app in Hc as [Hc|Hc%list_elem_of_singleton]; [by left|done].
      * right. by apply elem_of_cons; right.
  - assert (1 <= q <= numPages) as Hq by lia.
    destruct (renderInto_in_range numPages dir q s Hok Hq) as (s1 & -> & Heff).
    simpl.
    pose proof (bodyEffect_slotsOK _ _ _ _ _ Hok Hq Heff) as Hok1.
    destruct (bodyEffect_console _ _ _ _ Heff) as (m1 & Hc1 & Hnw & Hrd).
    destruct (IH s1 Hok1) as (s' & Hrun & Hok' & Hlen & Hkeep & Hwarn & Hreq).
    exists s'. split; [done|]. split; [done|]. split; [|split; [|split]].
    + rewrite Hlen, Hc1, length_app. simpl. lia.
    + intros m Hm. apply Hkeep. rewrite Hc1. apply elem_of_app. by left.
    + intros q' [->|Hq']%elem_of_cons Hr; [lia|by apply Hwarn].
    + intros p out Hp. destruct (Hreq p out Hp) as [Hc|Hc].
      * rewrite Hc1 in Hc.
        apply elem_of_app in Hc as [Hc|Hc%list_elem_of_singleton]; [by left|].
        right. apply elem_of_cons. left. by apply (Hrd p out).
      * right. by apply elem_of_cons; right.
Qed.

Lemma fresh_slotsOK numPages dir (w : O) : slotsOK numPages dir (fresh numPages w).
Proof.
  split; simpl.
  - by rewrite length_replicate.
  - intros i slot [-> _]%lookup_replicate Hne. done.
  - intros p out Hin. by apply elem_of_nil in Hin.
  - intros q Hin. by apply elem_of_nil in Hin.
Qed.

(** The sequential loop on a fresh memory. *)
Lemma sequentialLoop_scheduled numPages dir pageNumbers (w : O) :
  exists s,
    sequentialLoop numPages dir pageNumbers (fresh numPages w) = Returned s /\
    scheduled numPages dir pageNumbers s.
Proof.
  destruct (sequentialLoop_spec numPages dir pageNumbers (fresh numPages w)
              (fresh_slotsOK _ _ _)) as (s & Hrun & Hok & Hlen & _ & Hwarn & Hreq).
  exists s. split; [done|]. split; [done|done|done|].
  intros p out Hp. destruct (Hreq p out Hp) as [Hc|Hc]; [|done].
  by apply elem_of_nil in Hc.
Qed.

(** *** Counting workers *)

Lemma standing_app pcs (ws ws' : list (Z * workerPc)) :
  standing pcs (ws ++ ws') = (standing pcs ws + standing pcs ws')%nat.
Proof. unfold standing. by rewrite List.filter_app, length_app. Qed.

Lemma standing_cons pcs p pc (ws : list (Z * workerPc)) :
  standing pcs ((p, pc) :: ws) = (weight pcs pc + standing pcs ws)%nat.
Proof. unfold standing, weight. simpl. by destruct (bool_decide (pc ∈ pcs)). Qed.

(** Moving one worker from [pc] to [pc'] moves its weight. *)
Lemma standing_insert pcs (ws : list (Z * workerPc)) i p pc pc' :
  ws !! i = Some (p, pc) ->
  (standing pcs (<[i := (p, pc')]> ws) + weight pcs pc
   = standing pcs ws + weight pcs pc')%nat.
Proof.
  revert i. induction ws as [|[q c] ws IH]; intros [|i]; simpl; try done.
  - intros [= -> ->]. rewrite !standing_cons. lia.
  - intros Hi. rewrite !standing_cons. specialize (IH i Hi). lia.
Qed.

Lemma standing_pos pcs (ws : list (Z * workerPc)) i p pc :
  ws !! i = Some (p, pc) -> pc ∈ pcs -> (0 < standing pcs ws)%nat.
Proof.
  revert i. induction ws as [|[q c] ws IH]; intros [|i]; simpl; try done.
  - intros [= -> ->] Hin. rewrite standing_cons. unfold weight.
    rewrite bool_decide_eq_true_2 by done. lia.
  - intros Hi Hin. rewrite standing_cons. specialize (IH i Hi Hin). lia.
Qed.

Lemma standing_mono pcs pcs' (ws : list (Z * workerPc)) :
  (forall pc, pc ∈ pcs -> pc ∈ pcs') ->
  (standing pcs ws <= standing pcs' ws)%nat.
Proof.
  intros Hsub. induction ws as [|[q c] ws IH]; [done|].
  rewrite !standing_cons. unfold weight.
  destruct (bool_decide (c ∈ pcs)) eqn:E; [|lia].
  apply bool_decide_eq_true in E. rewrite bool_decide_eq_true_2 by auto. lia.
Qed.

Lemma standing_none_exited (ws : list (Z * workerPc)) :
  standing [AtBody; AtRelease; AtDone] ws = 0%nat ->
  Forall (fun w => w.2 = Exited) ws.
Proof.
  induction ws as [|[q c] ws IH]; [constructor|].
  rewrite standing_cons. intros H. constructor.
  - simpl. destruct c; try done; unfold weight in H;
      rewrite bool_decide_eq_true_2 in H by repeat constructor; lia.
  - apply IH. lia.
Qed.

Lemma standing_exited (ws : list (Z * workerPc)) :
  Forall (fun w => w.2 = Exited) ws ->
  standing [AtRelease; AtDone; Exited] ws = length ws.
Proof.
  induction 1 as [|[q c] ws Hc _ IH]; [done|].
  simpl in Hc. subst c. rewrite standing_cons, IH. unfold weight.
  rewrite bool_decide_eq_true_2 by repeat constructor. done.
Qed.

Lemma fst_insert_same (ws : list (Z * workerPc)) i p pc pc' :
  ws !! i = Some (p, pc) -> (<[i := (p, pc')]> ws).*1 = ws.*1.
Proof.
  intros Hi. rewrite list_fmap_insert. simpl.
  apply list_insert_id. by rewrite list_lookup_fmap, Hi.
Qed.

Lemma filter_split_length (f : Z -> bool) (l : list Z) :
  (length (List.filter f l) + length (List.filter (fun q => negb (f q)) l)
   = length l)%nat.
Proof.
  induction l as [|a l IH]; [done|]. simpl.
  destruct (f a); simpl; lia.
Qed.

(** *** The invariant of the parallel loop *)

Lemma machineOK_initial numPages dir pageNumbers (w : O) :
  machineOK numPages dir pageNumbers (initial pageNumbers (fresh numPages w)).
Proof.
  split; simpl; try done.
  - unfold concurrencyLimit. lia.
  - apply fresh_slotsOK.
  - intros p Hp. by apply elem_of_nil in Hp.
  - exists []. repeat split; try done.
    + intros q Hq. by apply elem_of_nil in Hq.
    + intros p out Hp. by apply elem_of_nil in Hp.
Qed.

(** A body that returned had one of the three effects. *)
Lemma renderInto_returned dir p (s s' : store) :
  renderInto dir p s = Returned s' -> bodyEffect dir p s s'.
Proof.
  intros H. destruct (renderInto_cases dir p s) as [(s1 & H1 & He)|(pn & H1 & _)];
    rewrite H in H1; [|done]. by injection H1 as ->.
Qed.

Lemma inRangeb_true numPages p : 1 <= p <= numPages -> inRangeb numPages p = true.
Proof. intros. unfold inRangeb. by apply bool_decide_eq_true_2. Qed.

Lemma inRangeb_false numPages p :
  p < 1 \/ p > numPages -> inRangeb numPages p = false.
Proof. intros. unfold inRangeb. apply bool_decide_eq_false_2. lia. Qed.

Lemma machineOK_step numPages dir pageNumbers (m m' : machine) :
  machineOK numPages dir pageNumbers m -> step platform numPages dir m m' ->
  machineOK numPages dir pageNumbers m'.
Proof.
  intros Hok Hstep. revert Hok.
  destruct Hstep as
    [ pageNum rest ws sm w s H
    | pageNum rest ws sm w s H
    | pageNum rest ws sm w s H
    | pageNum rest ws sm w s
    | ws sm s
    | i pageNum m s' H H0 H1
    | i pageNum m pn H H0 H1
    | i pageNum m sm H H0 H1
    | i pageNum m H H0 H1
    | i pageNum m H H0 H1 ];
    intros [Halive Hsem Hlim Hwg Hjoin Hslots Hadd Hrange
              (done & Hpages & Hws & Hcons & Hwarn & Hreq)];
    simpl in *.
  - (* a page out of range *)
    split; simpl; try done.
    + apply println_slotsOK; [done|done|]. by intros ? [= <-].
    + exists (done ++ [pageNum]). split; [by rewrite <- app_assoc|].
      rewrite !List.filter_app. simpl.
      rewrite (inRangeb_false _ _ H). simpl.
      rewrite app_nil_r, !length_app. simpl.
      split; [done|]. split; [lia|]. split.
      * intros q [Hq|Hq%list_elem_of_singleton]%elem_of_app Hr;
          apply elem_of_app; [left; by apply Hwarn|right].
        subst q. by apply list_elem_of_singleton.
      * intros p out [Hp|Hp%list_elem_of_singleton]%elem_of_app; [|done].
        apply elem_of_app. left. by apply (Hreq p out).
  - (* wg.Add(1) *)
    split; simpl; try done.
    + rewrite Hwg. lia.
    + intros p ->%list_elem_of_singleton. lia.
    + exists done. done.
  - (* sem <- struct{}{} *)
    split; simpl; try done.
    + rewrite Hsem. lia.
    + exists done. done.
  - (* go func *)
    assert (1 <= pageNum <= numPages) as Hp.
    { apply Hadd. by apply list_elem_of_singleton. }
    split; simpl; try done.
    + rewrite standing_app, Hsem. unfold standing. simpl. lia.
    + rewrite standing_app, Hwg. unfold standing. simpl. lia.
    + intros p Hin. by apply elem_of_nil in Hin.
    + apply Forall_app. split; [done|]. by apply Forall_singleton.
    + exists (done ++ [pageNum]). split; [by rewrite <- app_assoc|].
      rewrite !List.filter_app, fmap_app, standing_app. simpl.
      rewrite (inRangeb_true _ _ Hp). simpl.
      rewrite app_nil_r, Hws. unfold standing at 2. simpl.
      split; [done|]. split; [lia|]. split.
      * intros q [Hq|Hq%list_elem_of_singleton]%elem_of_app Hr; [by apply Hwarn|lia].
      * intros p out Hin. apply elem_of_app. left. by apply (Hreq p out).
  - (* wg.Wait() *)
    split; simpl; try done.
    exists done. done.
  - (* the body of a worker *)
    pose proof (renderInto_returned _ _ _ _ H1) as Heff.
    assert (1 <= pageNum <= numPages) as Hp.
    { rewrite Forall_forall in Hrange.
      apply (Hrange (pageNum, AtBody)). by eapply list_elem_of_lookup_2. }
    pose proof (standing_insert [AtBody; AtRelease] _ _ _ _ AtRelease H0) as E1.
    pose proof (standing_insert [AtBody; AtRelease; AtDone] _ _ _ _ AtRelease H0) as E2.
    pose proof (standing_insert [AtRelease; AtDone; Exited] _ _ _ _ AtRelease H0) as E3.
    unfold weight in E1, E2, E3. simpl in E1, E2, E3.
    destruct (bodyEffect_console _ _ _ _ Heff) as (m1 & Hc1 & Hnw & Hrd).
    split; simpl; try done.
    + lia.
    + rewrite Hwg. lia.
    + by apply (bodyEffect_slotsOK _ _ _ _ _ Hslots Hp Heff).
    + apply Forall_insert; [done|]. done.
    + exists done. split; [done|].
      rewrite (fst_insert_same _ _ _ _ _ H0). split; [done|].
      rewrite Hc1, length_app. simpl. split; [lia|]. split.
      * intros q Hq Hr. apply elem_of_app. left. by apply Hwarn.
      * intros p out [Hin|Hin%list_elem_of_singleton]%elem_of_app;
          [by apply (Hreq p out)|].
        symmetry in Hin. apply Hrd in Hin as ->.
        assert (pageNum ∈ (workers m).*1) as Hw.
        { apply list_elem_of_fmap. exists (pageNum, AtBody). split; [done|].
          by eapply list_elem_of_lookup_2. }
        rewrite Hws in Hw. apply list_elem_of_In, List.filter_In in Hw as [Hw _].
        by apply list_elem_of_In.
  - (* the body of a worker panics: no *)
    exfalso.
    assert (1 <= pageNum <= numPages) as Hp.
    { rewrite Forall_forall in Hrange.
      apply (Hrange (pageNum, AtBody)). by eapply list_elem_of_lookup_2. }
    destruct (renderInto_in_range _ _ _ _ Hslots Hp) as (s1 & Hs1 & _).
    congruence.
  - (* <-sem *)
    pose proof (standing_insert [AtBody; AtRelease] _ _ _ _ AtDone H0) as E1.
    pose proof (standing_insert [AtBody; AtRelease; AtDone] _ _ _ _ AtDone H0) as E2.
    pose proof (standing_insert [AtRelease; AtDone; Exited] _ _ _ _ AtDone H0) as E3.
    assert (1 <= pageNum <= numPages) as Hp.
    { rewrite Forall_forall in Hrange.
      apply (Hrange (pageNum, AtRelease)). by eapply list_elem_of_lookup_2. }
    unfold weight in E1, E2, E3. simpl in E1, E2, E3.
    split; simpl; try done.
    + lia.
    + lia.
    + rewrite Hwg. lia.
    + apply Forall_insert; [done|]. done.
    + exists done. split; [done|].
      rewrite (fst_insert_same _ _ _ _ _ H0). split; [done|].
      split; [lia|]. done.
  - (* wg.Done() *)
    pose proof (standing_insert [AtBody; AtRelease] _ _ _ _ Exited H0) as E1.
    pose proof (standing_insert [AtBody; AtRelease; AtDone] _ _ _ _ Exited H0) as E2.
    pose proof (standing_insert [AtRelease; AtDone; Exited] _ _ _ _ Exited H0) as E3.
    assert (1 <= pageNum <= numPages) as Hp.
    { rewrite Forall_forall in Hrange.
      apply (Hrange (pageNum, AtDone)). by eapply list_elem_of_lookup_2. }
    unfold weight in E1, E2, E3. simpl in E1, E2, E3.
    split; simpl; try done.
    + lia.
    + rewrite Hwg. lia.
    + intros Hj. specialize (Hjoin Hj). lia.
    + apply Forall_insert; [done|]. done.
    + exists done. split; [done|].
      rewrite (fst_insert_same _ _ _ _ _ H0). split; [done|].
      split; [lia|]. done.
  - (* wg.Done() below zero: no *)
    exfalso.
    pose proof (standing_pos [AtBody; AtRelease; AtDone] _ _ _ _ H0
                  ltac:(repeat constructor)).
    lia.
Qed.

Lemma reachable_machineOK numPages dir pageNumbers (w : O) (m : machine) :
  reachable platform numPages dir (initial pageNumbers (fresh numPages w)) m ->
  machineOK numPages dir pageNumbers m.
Proof.
  induction 1 as [|m m' _ IH Hstep].
  - apply machineOK_initial.
  - by apply (machineOK_step _ _ _ m m').
Qed.

(** Past [wg.Wait()] every worker is gone and the memory is as the
    sequential loop would leave it. *)
Lemma machineOK_joined numPages dir pageNumbers (m : machine) :
  machineOK numPages dir pageNumbers m -> main m = Joined ->
  Forall (fun w => w.2 = Exited) (workers m) /\
  (workers m).*1 = List.filter (inRangeb numPages) pageNumbers /\
  scheduled numPages dir pageNumbers (mem m).
Proof.
  intros [Halive Hsem Hlim Hwg Hjoin Hslots Hadd Hrange
            (done & Hpages & Hws & Hcons & Hwarn & Hreq)] Hj.
  rewrite Hj in *. simpl in *. rewrite app_nil_r in Hpages. subst done.
  specialize (Hjoin eq_refl).
  assert (Forall (fun w => w.2 = Exited) (workers m)) as Hex.
  { apply standing_none_exited. lia. }
  split; [done|]. split; [done|]. split; [done| |done|done].
  rewrite Hcons, (standing_exited _ Hex).
  rewrite <- (length_fmap fst), Hws.
  pose proof (filter_split_length (inRangeb numPages) pageNumbers). lia.
Qed.


End SchedulerFacts.

Section SchedulerClaims.

Import cli cmd spec.

Context {O Page Image : Type} (platform : Platform O Page Image).

(** C8.  In every state the parallel loop can reach: at most
    [concurrencyLimit] render bodies are in flight; the slots taken from
    [sem] are those of the workers that have not yet run their deferred
    [<-sem], plus the one the main goroutine took for the worker it is
    about to start; no goroutine has panicked; and once the main goroutine
    is past [wg.Wait()], one worker was started for each requested page in
    range and all of them have run to their end. *)
Theorem parallel_bounded numPages dir pageNumbers (w : O) (m : @machine O) :
  reachable platform numPages dir (initial pageNumbers (fresh numPages w)) m ->
  (running m <= concurrencyLimit)%nat /\
  sem m = (standing [AtBody; AtRelease] (workers m) + taken (main m))%nat /\
  alive m /\
  (main m = Joined ->
   Forall (fun w => w.2 = Exited) (workers m) /\
   (workers m).*1 = List.filter (inRangeb numPages) pageNumbers).
Proof.
  intros Hreach.
  pose proof (reachable_machineOK platform _ _ _ _ _ Hreach) as Hok.
  split; [|split; [|split]].
  - destruct Hok as [_ Hsem Hlim _ _ _ _ _ _].
    pose proof (standing_mono [AtBody] [AtBody; AtRelease] (workers m)) as Hm.
    unfold running. etrans; [apply Hm|lia].
    intros pc Hpc. apply elem_of_cons. by left; apply list_elem_of_singleton.
  - by destruct Hok.
  - by destruct Hok.
  - intros Hj. destruct (machineOK_joined _ _ _ _ Hok Hj) as (H1 & H2 & _). done.
Qed.

(** A body in flight can always run to its end and reach the deferred
    [<-sem], with any of its three effects: a failed [GetPage], a failed
    render or a stored page. *)
Lemma worker_reaches_release numPages dir pageNumbers (w : O) (m : @machine O) i p :
  reachable platform numPages dir (initial pageNumbers (fresh numPages w)) m ->
  workers m !! i = Some (p, AtBody) ->
  exists s',
    bodyEffect dir p (mem m) s' /\
    step platform numPages dir m
      {| main := main m; workers := <[i := (p, AtRelease)]> (workers m);
         sem := sem m; wg := wg m; mem := s' |}.
Proof.
  intros Hreach Hi.
  destruct (reachable_machineOK platform _ _ _ _ _ Hreach)
    as [Halive _ _ _ _ Hslots _ Hrange _].
  assert (1 <= p <= numPages) as Hp.
  { rewrite Forall_forall in Hrange.
    apply (Hrange (p, AtBody)). by eapply list_elem_of_lookup_2. }
  destruct (renderInto_in_range platform _ _ _ _ Hslots Hp) as (s' & Hrun & Heff).
  exists s'. split; [done|]. by apply step_body.
Qed.

End SchedulerClaims.

Section SchedulerRuns.

Import cli cmd spec.

Lemma parallel_bounded_witness :
  (running {| main := AtLoop [9%Z]; workers := [(1%Z, AtBody)]; sem := 1;
              wg := 1%Z; mem := fresh 2%Z ([] : list string) |}
   <= concurrencyLimit)%nat.
Proof.
  refine (proj1 (parallel_bounded demoPlatform 2 "out/doc" [1; 9] [] _ _)).
  eapply reachable_step; [eapply reachable_step; [eapply reachable_step;
    [apply reachable_start|]|]|].
  - apply step_add. lia.
  - apply step_acquire. unfold concurrencyLimit. lia.
  - apply (step_go demoPlatform 2 "out/doc" 1 [9] [] 1 1).
Defined.

(** C6.  A sequential run on report.pdf with the output directory out: the
    page is written to out/page_1.jpg, next to the directory out/report of
    the PDF and not inside it. *)
Theorem sequential_writes_outside_pdf_dir fuel :
  outDir "out" "report.pdf" = "out/report" /\
  runSequential demoPlatform (S (S fuel)) "report.pdf" "out" "describe" "" 1 []
  = Returned (inr {| renderedPages :=
                       [{| pageNum := 1; filePath := "out/page_1.jpg" |}];
                     console := [RenderedPage 1 "out/page_1.jpg"];
                     world := ["out/page_1.jpg"] |}).
Proof. split; reflexivity. Qed.

End SchedulerRuns.

(** ** Where the images go, and that the parallel loop can finish *)

Section OutputLayout.

Import cli cmd spec.

Context {O Page Image : Type} (platform : Platform O Page Image).

(** The page loop starts on empty slots. *)
Lemma prepare_fresh fuel filePath outputDir prompt pageRange numPages (w : O)
    pageNumbers s :
  prepare platform fuel filePath outputDir prompt pageRange numPages w
  = Returned (inr (pageNumbers, s)) ->
  exists w1, s = fresh numPages w1.
Proof.
  unfold prepare. destruct (decide _); [done|].
  destruct (selectPages fuel pageRange numPages) as [[e|l]| |]; simpl; try done.
  unfold makeSlots. destruct (decide (numPages < 0)); simpl; [done|].
  destruct (ensureDir platform _ w) as [w1 [e|]]; [done|].
  intros [= <- <-]. by exists w1.
Qed.

(** X13.  Sequential mode: every rendered page [p] is reported, and stored
    in slot [p-1], under [outputDir/page_p.jpg], the output directory
    itself. *)
Lemma runSequential_paths fuel filePath outputDir prompt pageRange numPages
    (w : O) s p out :
  runSequential platform fuel filePath outputDir prompt pageRange numPages w
  = Returned (inr s) ->
  RenderedPage p out ∈ console s ->
  out = pagePath outputDir p /\
  renderedPages s !! Z.to_nat (p - 1) = Some {| pageNum := p; filePath := out |}.
Proof.
  unfold runSequential.
  destruct (prepare platform fuel filePath outputDir prompt pageRange numPages w)
    as [[e|[pageNumbers s0]]| |] eqn:Hprep; simpl; try done.
  destruct (prepare_fresh _ _ _ _ _ _ _ _ _ Hprep) as (w1 & ->).
  destruct (sequentialLoop_scheduled platform numPages outputDir pageNumbers w1)
    as (s' & -> & [[_ _ Hr _] _ _ _]).
  simpl. intros [= <-] Hin. by destruct (Hr p out Hin) as (_ & -> & ?).
Qed.

(** X14.  Parallel mode: in every state of the run, every rendered page
    [p] is reported, and stored in slot [p-1], under [outDir/page_p.jpg],
    the directory inside the output directory that is named after the
    PDF. *)
Lemma runsParallel_paths fuel filePath outputDir prompt pageRange numPages
    (w : O) m p out :
  runsParallel platform fuel filePath outputDir prompt pageRange numPages w m ->
  RenderedPage p out ∈ console (mem m) ->
  out = pagePath (outDir outputDir filePath) p /\
  renderedPages (mem m) !! Z.to_nat (p - 1)
  = Some {| pageNum := p; filePath := out |}.
Proof.
  intros (pageNumbers & s & Hprep & Hreach) Hin.
  destruct (prepare_fresh _ _ _ _ _ _ _ _ _ Hprep) as (w1 & ->).
  destruct (reachable_machineOK platform _ _ _ _ _ Hreach)
    as [_ _ _ _ _ [_ _ Hr _] _ _ _].
  by destruct (Hr p out Hin) as (_ & -> & ?).
Qed.

(** From the head of the loop with no worker under way, the main goroutine
    can get past [wg.Wait()]: the workers may run one after the other. *)
Lemma parallel_joins_from numPages dir m0 pageNumbers ws (s : @store O) :
  slotsOK numPages dir s ->
  reachable platform numPages dir m0
    {| main := AtLoop pageNumbers; workers := ws; sem := 0; wg := 0; mem := s |} ->
  exists m, reachable platform numPages dir m0 m /\ main m = Joined.
Proof.
  revert ws s. induction pageNumbers as [|q rest IH]; intros ws s Hok Hreach.
  - exists {| main := Joined; workers := ws; sem := 0; wg := 0; mem := s |}.
    split; [|reflexivity].
    eapply reachable_step; [exact Hreach|]. apply step_wait.
  - destruct (decide (q < 1 \/ q > numPages)) as [Hout|Hin].
    + apply (IH ws (println (PageOutOfRange q) s (world s))).
      * apply println_slotsOK; [done|done|]. by intros ? [= <-].
      * eapply reachable_step; [exact Hreach|]. by apply step_skip.
    + assert (1 <= q <= numPages) as Hq by lia.
      destruct (renderInto_in_range platform _ dir _ _ Hok Hq) as (s' & Hrun & Heff).
      set (n := length ws).
      assert ((ws ++ [(q, AtBody)]) !! n = Some (q, AtBody)) as Hbody.
      { subst n. by rewrite list_lookup_middle. }
      assert (n < length (ws ++ [(q, AtBody)]))%nat as Hn.
      { rewrite length_app. simpl. lia. }
      eapply (IH _ s').
      * by apply (bodyEffect_slotsOK _ _ _ _ _ Hok Hq Heff).
      * eapply reachable_step; [eapply reachable_step; [eapply reachable_step;
          [eapply reachable_step; [eapply reachable_step; [eapply reachable_step;
            [exact Hreach|]|]|]|]|]|].
        -- by apply step_add.
        -- apply step_acquire. unfold concurrencyLimit. lia.
        -- apply step_go.
        -- apply (step_body platform numPages dir n q
                    {| main := AtLoop rest; workers := ws ++ [(q, AtBody)];
                       sem := 1; wg := 0 + 1; mem := s |} s'); done.
        -- apply (step_release platform numPages dir n q
                    {| main := AtLoop rest;
                       workers := <[n := (q, AtRelease)]> (ws ++ [(q, AtBody)]);
                       sem := 1; wg := 0 + 1; mem := s' |} 0); simpl; [done| |done].
           by rewrite list_lookup_insert_eq.
        -- apply (step_done platform numPages dir n q
                    {| main := AtLoop rest;
                       workers := <[n := (q, AtDone)]>
                                    (<[n := (q, AtRelease)]> (ws ++ [(q, AtBody)]));
                       sem := 0; wg := 0 + 1; mem := s' |}); simpl; [done| |lia].
           rewrite list_lookup_insert_eq; [done|]. by rewrite length_insert.
Qed.

(** X28.  The parallel loop can finish on every request: from the start
    there is a schedule that brings [main] past [wg.Wait()]. *)
Lemma parallel_can_join numPages dir pageNumbers (w : O) :
  exists m,
    reachable platform numPages dir (initial pageNumbers (fresh numPages w)) m /\
    main m = Joined.
Proof.
  apply (parallel_joins_from numPages dir _ pageNumbers [] (fresh numPages w)).
  - apply fresh_slotsOK.
  - apply reachable_start.
Qed.

End OutputLayout.

(** ** What the page loop does with each requested page *)

Section SchedulerServed.

Import cli cmd spec.

Context {O Page Image : Type} (platform : Platform O Page Image).

Local Abbreviation store := (@store O).
Local Abbreviation machine := (@machine O).









End SchedulerServed.

Section SchedulerServedRuns.

Import cli cmd spec.



End SchedulerServedRuns.

(** The request 1, 3, 7 on five pages, run sequentially in a world where
    every call succeeds. *)
Example sequentialLoop_1_3_7 :
  cmd.sequentialLoop spec.demoPlatform 5 "out" [1; 3; 7] (spec.fresh 5 [])
  = Returned
      {| cmd.renderedPages :=
           [ {| cmd.pageNum := 1; cmd.filePath := "out/page_1.jpg" |};
             cmd.emptySlot;
             {| cmd.pageNum := 3; cmd.filePath := "out/page_3.jpg" |};
             cmd.emptySlot; cmd.emptySlot ];
         cmd.console :=
           [ cmd.RenderedPage 1 "out/page_1.jpg";
             cmd.RenderedPage 3 "out/page_3.jpg"; cmd.PageOutOfRange 7 ];
         cmd.world := ["out/page_1.jpg"; "out/page_3.jpg"] |}.
Proof. reflexivity. Qed.

(** ** More on ParsePageRange *)

Section ParsePageRangeMore.

Import strconv strings cli cmd.

Lemma ParsePageRange_dash_range_witness :
  ParsePageRange 10 "2-4" = Returned ([2; 3; 4], None).
Proof.
  apply (ParsePageRange_dash_range 10 "2-4" "2" "4" 2 4);
    try reflexivity; unfold maxInt, intSize; simpl; lia.
Defined.

(** What the range loop returns, when it returns. *)
Lemma rangeLoop_returned fuel a b acc l :
  minInt <= a -> b <= maxInt ->
  rangeLoop fuel a b acc = Returned l ->
  l = acc ++ seqZ a (b + 1 - a) /\ (a <= b -> b < maxInt).
Proof.
  revert a acc. induction fuel as [|fuel IH]; intros a acc Ha Hb; [done|].
  destruct (decide (a <= b)) as [Hab|Hab].
  - destruct (decide (b = maxInt)) as [->|Hne].
    { by rewrite rangeLoop_maxInt. }
    simpl. rewrite (proj2 (Z.leb_le _ _) Hab).
    rewrite wrap_id by lia.
    intros Hrun. destruct (IH (a + 1) _ ltac:(lia) Hb Hrun) as [-> _].
    split; [|lia]. rewrite (seqZ_cons a) by lia. rewrite <- app_assoc. simpl.
    replace (Z.succ a) with (a + 1) by lia.
    replace (Z.pred (b + 1 - a)) with (b + 1 - (a + 1)) by lia. done.
  - simpl. rewrite (proj2 (Z.leb_gt _ _)) by lia. intros [= <-].
    rewrite seqZ_nil by lia. rewrite app_nil_r. split; [done|lia].
Qed.

(** X2.  Page numbers come out of the dash form only: whenever
    [ParsePageRange] returns a non-empty list without an error, the input
    splits at its dash into two integers [start <= end] and the list is
    [start, .., end]. *)
Theorem ParsePageRange_pages_from_dash fuel s pages :
  ParsePageRange fuel s = Returned (pages, None) -> pages <> [] ->
  exists p0 p1 a b,
    Split s "-" = [p0; p1] /\ Atoi p0 = Some a /\ Atoi p1 = Some b /\
    a <= b < maxInt /\ pages = seqZ a (b - a + 1).
Proof.
  unfold ParsePageRange.
  destruct (decide (s = EmptyString)) as [->|_]; [by intros [= <-]|].
  unfold dashBlock. destruct (Contains s "-") eqn:Hd.
  - destruct (decide (length (Split s "-") <> 2%nat)) as [|Hlen]; [done|].
    destruct (Split s "-") as [|p0 [|p1 [|p2 rest]]] eqn:Hs; simpl in Hlen;
      try lia.
    simpl. destruct (Atoi p0) as [a|] eqn:Ha; [|done].
    destruct (Atoi p1) as [b|] eqn:Hb; [|done].
    destruct (rangeLoop fuel a b []) as [l| |] eqn:Hrun; simpl; try done.
    destruct (Contains s ","); [|].
    { pose proof (Split_nonempty s ","%char).
      by destruct (Split s ","). }
    intros [= <-] Hne.
    pose proof (Atoi_range _ _ Ha). pose proof (Atoi_range _ _ Hb).
    destruct (rangeLoop_returned fuel a b [] l ltac:(lia) ltac:(lia) Hrun)
      as [-> Hlt].
    simpl in Hne. destruct (decide (a <= b)) as [Hab|Hab].
    + exists p0, p1, a, b. repeat split; try done; try lia.
      simpl. f_equal. lia.
    + rewrite seqZ_nil in Hne by lia. done.
  - simpl. destruct (Contains s ",").
    + pose proof (Split_nonempty s ","%char). by destruct (Split s ",").
    + by intros [= <-].
Qed.

Lemma ParsePageRange_pages_from_dash_witness :
  exists p0 p1 a b,
    Split "2-4" "-" = [p0; p1] /\ Atoi p0 = Some a /\ Atoi p1 = Some b /\
    a <= b < maxInt /\ [2; 3; 4] = seqZ a (b - a + 1).
Proof.
  apply (ParsePageRange_pages_from_dash 10 "2-4" [2; 3; 4]); [reflexivity|done].
Defined.

(** X3.  A descending range such as 5-3 is no error: the loop body never
    runs, the list is empty, and the command reads the selector like a
    missing one. *)
Theorem ParsePageRange_descending fuel s p0 p1 a b :
  Split s "-" = [p0; p1] -> Atoi p0 = Some a -> Atoi p1 = Some b -> b < a ->
  ParsePageRange (S fuel) s = Returned ([], None) /\
  forall numPages,
    selectPages (S fuel) s numPages = selectPages (S fuel) EmptyString numPages.
Proof.
  intros Hs Ha Hb Hab.
  assert (ParsePageRange (S fuel) s = Returned ([], None)) as Hp.
  { rewrite (ParsePageRange_dash_form _ _ _ _ _ _ Hs Ha Hb). simpl.
    by rewrite (proj2 (Z.leb_gt _ _)) by lia. }
  split; [done|]. intros numPages. unfold selectPages.
  destruct (decide (s <> EmptyString)) as [_|Hn]; [by rewrite Hp|].
  by destruct (decide (EmptyString <> EmptyString)).
Qed.

Lemma ParsePageRange_descending_witness :
  ParsePageRange 1 "5-3" = Returned ([], None) /\
  selectPages 4 "5-3" 3 = Returned (inr [1; 2; 3]).
Proof.
  split.
  - apply (ParsePageRange_descending 0 "5-3" "5" "3" 5 3); try reflexivity; lia.
  - rewrite (proj2 (ParsePageRange_descending 3 "5-3" "5" "3" 5 3
               eq_refl eq_refl eq_refl ltac:(lia)) 3).
    reflexivity.
Defined.

(** X4.  An expression with a dash that does not split into two integers
    is always rejected; it neither panics nor runs the loop.  The error
    tells what is wrong: the whole expression under invalid page range
    format when it does not split into two parts; else the first part
    under invalid start page when that is no integer; else the second
    part, which is no integer, under invalid end page. *)
Theorem ParsePageRange_dash_rejected fuel s :
  Contains s "-" = true ->
  (forall p0 p1 a b,
      Split s "-" = [p0; p1] -> Atoi p0 = Some a -> Atoi p1 = Some b -> False) ->
  exists err,
    ParsePageRange fuel s = Returned ([], Some err) /\
    ((length (Split s "-") <> 2%nat /\
      err = Errorf "invalid page range format: " s) \/
     (exists p0 p1,
         Split s "-" = [p0; p1] /\ Atoi p0 = None /\
         err = Errorf "invalid start page: " p0) \/
     (exists p0 p1 a,
         Split s "-" = [p0; p1] /\ Atoi p0 = Some a /\ Atoi p1 = None /\
         err = Errorf "invalid end page: " p1)).
Proof.
  intros Hd Hnot.
  destruct (decide (length (Split s "-") <> 2%nat)) as [Hlen|Hlen].
  - exists (Errorf "invalid page range format: " s).
    split; [by apply ParsePageRange_dash_parts|by left].
  - destruct (Split s "-") as [|p0 [|p1 [|p2 rest]]] eqn:Hs; simpl in Hlen;
      try lia.
    destruct (Atoi p0) as [a|] eqn:Ha.
    + destruct (Atoi p1) as [b|] eqn:Hb; [by destruct (Hnot p0 p1 a b)|].
      exists (Errorf "invalid end page: " p1).
      split; [by apply (ParsePageRange_dash_end _ _ p0 p1 a)|].
      right. right. by exists p0, p1, a.
    + exists (Errorf "invalid start page: " p0).
      split; [by apply (ParsePageRange_dash_start _ _ p0 p1)|].
      right. left. by exists p0, p1.
Qed.

Lemma ParsePageRange_dash_rejected_witness :
  exists err,
    ParsePageRange 0 "1-x" = Returned ([], Some err) /\
    ((length (Split "1-x" "-") <> 2%nat /\
      err = Errorf "invalid page range format: " "1-x") \/
     (exists p0 p1,
         Split "1-x" "-" = [p0; p1] /\ Atoi p0 = None /\
         err = Errorf "invalid start page: " p0) \/
     (exists p0 p1 a,
         Split "1-x" "-" = [p0; p1] /\ Atoi p0 = Some a /\ Atoi p1 = None /\
         err = Errorf "invalid end page: " p1)).
Proof.
  apply (ParsePageRange_dash_rejected 0 "1-x"); [reflexivity|].
  intros p0 p1 a b [= <- <-] _ Hb. discriminate Hb.
Defined.

End ParsePageRangeMore.

(** ** More on the streaming client *)

Section StreamMore.

Import uniai spec props.

Context {S : Type} (unmarshalError : string -> error + string).

Local Abbreviation scanLoop := (scanLoop unmarshalError).
Local Abbreviation stream := (stream unmarshalError).

(** With a status of 400 or more the scan stops at its first line, before
    the callback. *)
Lemma scanLoop_error_status response fn lines (st : S) :
  StatusCode response >= StatusBadRequest ->
  exists err, scanLoop response fn lines st = (st, [], err) /\
              (lines <> [] -> err <> None).
Proof.
  intros Hs. destruct lines as [|bts rest]; simpl.
  - by exists None.
  - destruct (unmarshalError bts) as [e|text]; [by eexists|].
    destruct (decide (text <> EmptyString)); [by eexists|].
    destruct (decide (StatusCode response >= StatusBadRequest)); [by eexists|done].
Qed.

(** On an answer with a status of 400 or more the callback is never
    invoked and its state is left as it was; if the scanner delivers a
    line at all, [stream] returns an error. *)
Lemma stream_error_status_tokens t hasData response fn (st : S) :
  responded t hasData response ->
  StatusCode response >= StatusBadRequest ->
  exists err, stream t hasData fn st = (st, [], err) /\
              (Body response <> [] -> err <> None).
Proof.
  intros Hr Hs. rewrite (stream_responded _ _ _ _ _ _ Hr).
  by apply scanLoop_error_status.
Qed.

(** X6.  When the scan reaches a line that is no JSON for the probe, [stream]
    returns the decoding error behind the prefix unmarshal, and the
    callback sees neither this line nor a later one. *)
Theorem stream_undecodable_line t hasData response fn pre bts post err
    (st st' : S) calls :
  responded t hasData response ->
  Body response = pre ++ bts :: post ->
  unmarshalError bts = inl err ->
  scanLoop response fn pre st = (st', calls, None) ->
  stream t hasData fn st = (st', pre, Some (wrapError "unmarshal: " err)).
Proof.
  intros Hr Hb Hu Hpre.
  rewrite (stream_responded _ _ _ _ _ _ Hr), Hb.
  rewrite (scanLoop_app _ _ _ _ _ _ _ _ Hpre). simpl. rewrite Hu.
  by rewrite app_nil_r.
Qed.

(** A scan without an error met plain lines only. *)
Lemma scanLoop_nil_plain response fn lines (st st' : S) calls :
  scanLoop response fn lines st = (st', calls, None) ->
  Forall (fun bts => unmarshalError bts = inr EmptyString) lines.
Proof.
  revert st calls. induction lines as [|bts rest IH]; simpl; intros st calls;
    [by constructor|].
  destruct (unmarshalError bts) as [e|text] eqn:Hu; [done|].
  destruct (decide (text <> EmptyString)) as [|Ht]; [done|].
  destruct (decide (StatusCode response >= StatusBadRequest)); [done|].
  destruct (fn bts st) as [st1 [e|]]; [done|].
  destruct (uniai.scanLoop _ response fn rest st1) as [[st2 calls2] r] eqn:E.
  simpl. intros [= <- <- ->]. constructor; [|by eapply IH].
  destruct (decide (text = EmptyString)) as [->|]; [done|contradiction].
Qed.

(** [stream] returns nil only when the request went out, an answer came
    back, and every line the scanner delivered decoded with an empty
    [error] field and was accepted by the callback. *)
Lemma stream_nil_tokens t hasData fn (st st' : S) calls :
  stream t hasData fn st = (st', calls, None) ->
  exists response,
    responded t hasData response /\
    calls = Body response /\
    handleAll fn (Body response) st = Some st' /\
    Forall (fun bts => unmarshalError bts = inr EmptyString) (Body response) /\
    (Body response <> [] -> StatusCode response < StatusBadRequest).
Proof.
  unfold uniai.stream, responded.
  destruct (if hasData then Marshal t else None) as [e|] eqn:Hm; [done|].
  destruct (NewRequest t) as [e|] eqn:Hn; [done|].
  destruct (Do t) as [e|response] eqn:Hd; [done|].
  intros Hrun. exists response.
  destruct (scanLoop_nil_result _ _ _ _ _ _ _ Hrun) as (-> & Hh & Hs).
  repeat split; try done. by eapply scanLoop_nil_plain.
Qed.

(** The callback is invoked on the lines of the body from the first one
    on, without a gap. *)
Lemma scanLoop_calls_prefix response fn lines (st : S) :
  exists rest, lines = (scanLoop response fn lines st).1.2 ++ rest.
Proof.
  revert st. induction lines as [|bts rest IH]; intros st; simpl.
  - by exists [].
  - destruct (unmarshalError bts) as [e|text]; [by eexists|].
    destruct (decide (text <> EmptyString)); [by eexists|].
    destruct (decide (StatusCode response >= StatusBadRequest)); [by eexists|].
    destruct (fn bts st) as [st1 [e|]]; [by exists rest|].
    destruct (IH st1) as (rest' & Hrest).
    destruct (uniai.scanLoop _ response fn rest st1) as [[st2 calls2] r].
    simpl in *. exists rest'. by rewrite Hrest at 1.
Qed.

(** X8.  In every call of [stream] the callback sees a front part of the
    body, line by line in order: no line is skipped, repeated or handed
    over out of turn, and without an answer the callback is not invoked. *)
Theorem stream_calls_front_of_body t hasData fn (st : S) :
  let calls := (stream t hasData fn st).1.2 in
  calls = [] \/
  exists response rest, Do t = inr response /\ Body response = calls ++ rest.
Proof.
  unfold uniai.stream.
  destruct (if hasData then Marshal t else None) as [e|]; [by left|].
  destruct (NewRequest t) as [e|]; [by left|].
  destruct (Do t) as [e|response] eqn:Hd; [by left|].
  right. destruct (scanLoop_calls_prefix response fn (Body response) st)
    as (rest & Hrest).
  by exists response, rest.
Qed.

End StreamMore.

Section StreamMoreRuns.

Import uniai spec props.

Lemma stream_undecodable_line_witness :
  stream demoProbe (demoTransport 200 ["a"; "?"; "c"]) true demoHandler 0%nat
  = (1%nat, ["a"], Some (wrapError "unmarshal: " (errorString "bad line"))).
Proof.
  apply (stream_undecodable_line demoProbe
           (demoTransport 200 ["a"; "?"; "c"]) true
           {| StatusCode := 200; Status := "status"; Body := ["a"; "?"; "c"] |}
           demoHandler ["a"] "?" ["c"] (errorString "bad line")
           0%nat 1%nat ["a"]);
    try reflexivity. repeat split.
Defined.

End StreamMoreRuns.

(** ** The scanner, and [stream] on the bytes of the body *)

Section ScannerFacts.

Import strings bufio.

Lemma append_cons a (s t : string) : String a s +:+ t = String a (s +:+ t).
Proof. reflexivity. Qed.

Lemma append_empty_r (s : string) : s +:+ EmptyString = s.
Proof. induction s as [|a s IH]; [done|]. by rewrite append_cons, IH. Qed.

Lemma append_assoc (a b c : string) : (a +:+ b) +:+ c = a +:+ (b +:+ c).
Proof. induction a as [|x a IH]; [done|]. by rewrite !append_cons, IH. Qed.

Lemma length_append (s t : string) :
  String.length (s +:+ t) = (String.length s + String.length t)%nat.
Proof. induction s as [|a s IH]; simpl; [done|]. by rewrite IH. Qed.

(** A line that fits the buffer is delivered when its line feed is read,
    and the scan goes on behind it. *)
Lemma scanFrom_line max held line rest :
  Contains line LF = false ->
  Z.of_nat (String.length held + String.length line) < max ->
  scanFrom max held (line +:+ String LF rest)
  = (dropCR (held +:+ line) :: (Scan max rest).1, (Scan max rest).2).
Proof.
  revert held. induction line as [|c line IH]; intros held Hc Hlen; simpl.
  - destruct (decide (LF = LF)); [|done]. rewrite append_empty_r.
    unfold Scan. by destruct (scanFrom max EmptyString rest).
  - simpl in Hc. apply orb_false_iff in Hc as [Hne Hc].
    apply bool_decide_eq_false in Hne.
    destruct (decide (c = LF)); [done|].
    simpl in Hlen.
    destruct (decide (max <= Z.of_nat (String.length held) + 1)); [lia|].
    rewrite (IH (held +:+ String c EmptyString) Hc).
    + by rewrite append_assoc.
    + rewrite length_append. simpl. lia.
Qed.

(** A line that fills the buffer before its line feed is read ends the
    scan: neither this line nor a later one is delivered. *)
Lemma scanFrom_long max held line rest :
  Contains line LF = false ->
  Z.of_nat (String.length held) < max ->
  max <= Z.of_nat (String.length held + String.length line) ->
  scanFrom max held (line +:+ rest) = ([], Some ErrTooLong).
Proof.
  revert held. induction line as [|c line IH]; intros held Hc Hheld Hlen; simpl.
  - simpl in Hlen. lia.
  - simpl in Hc. apply orb_false_iff in Hc as [Hne Hc].
    apply bool_decide_eq_false in Hne.
    destruct (decide (c = LF)); [done|].
    destruct (decide (max <= Z.of_nat (String.length held) + 1)); [done|].
    apply IH; [done| |].
    + rewrite length_append. simpl. lia.
    + rewrite length_append. simpl in *. lia.
Qed.

(** On a body of lines that all fit the buffer, the scanner delivers each
    line, without its carriage return, and ends without an error. *)
Lemma Scan_ndjson max lines :
  Forall (fun line => Contains line LF = false /\
                      Z.of_nat (String.length line) < max) lines ->
  Scan max (ndjson lines) = (dropCR <$> lines, None).
Proof.
  induction 1 as [|line rest [Hc Hlen] _ IH]; [done|].
  simpl. unfold Scan at 1. rewrite scanFrom_line by (done || (simpl; lia)).
  by rewrite IH.
Qed.

(** ... and up to the first line that does not fit, it delivers the lines
    before that one and ends with [ErrTooLong]. *)
Lemma Scan_ndjson_long max lines pre long post :
  lines = pre ++ long :: post ->
  Forall (fun line => Contains line LF = false /\
                      Z.of_nat (String.length line) < max) pre ->
  Contains long LF = false ->
  0 < max <= Z.of_nat (String.length long) ->
  Scan max (ndjson lines) = (dropCR <$> pre, Some ErrTooLong).
Proof.
  intros -> Hpre Hc Hlen. induction Hpre as [|line rest [Hlc Hll] _ IH]; simpl.
  - unfold Scan. apply scanFrom_long; simpl; [done|lia|lia].
  - unfold Scan at 1. rewrite scanFrom_line by (done || (simpl; lia)).
    by rewrite IH.
Qed.

Lemma bytesOf_succ n c : bytesOf (N.succ n) c = String c (bytesOf n c).
Proof. unfold bytesOf. by rewrite N.iter_succ. Qed.

Lemma bytesOf_length n c : Z.of_nat (String.length (bytesOf n c)) = Z.of_N n.
Proof.
  induction n as [|n IH] using N.peano_ind; [done|].
  rewrite bytesOf_succ. simpl String.length. lia.
Qed.

Lemma bytesOf_Contains n c sep : c <> sep -> Contains (bytesOf n c) sep = false.
Proof.
  intros Hne. induction n as [|n IH] using N.peano_ind; [done|].
  rewrite bytesOf_succ. simpl. rewrite IH.
  by rewrite bool_decide_eq_false_2.
Qed.

(** A line that does not start with a carriage return keeps its first
    byte. *)
Lemma dropCR_head c s : c <> CR -> exists t, dropCR (String c s) = String c t.
Proof.
  intros Hc. destruct s as [|d s]; simpl.
  - destruct (decide (c = CR)); [done|]. by eexists.
  - by eexists.
Qed.

End ScannerFacts.

Section StreamBytes.

Import strings bufio uniai spec props.

Context {S : Type} (unmarshalError : string -> error + string).

Local Abbreviation streamBytes := (@streamBytes S unmarshalError).

Lemma replied_responded w hasData reply :
  replied w hasData reply -> responded (delivered w) hasData (scanned reply).
Proof. intros (Hm & Hn & Hd). unfold responded. simpl. by rewrite Hd. Qed.

(** C4.  A body of N lines, each closed by its line feed, shorter than
    the [maxBufferSize] buffer of the scanner and decoding with an empty
    [error] field, under a status below 400: if the callback accepts all
    N lines, it has been invoked on exactly these N lines in order (each
    without its carriage return) and [stream] returns nil; if it refuses
    a line, [stream] returns the callback's error and the callback has
    seen the lines up to that one and no later line. *)
Theorem stream_lines_within_ceiling w hasData reply lines fn :
  replied w hasData reply ->
  Code reply < StatusBadRequest ->
  Bytes reply = ndjson lines ->
  Forall (plainLine unmarshalError) lines ->
  (forall st st' : S,
      handleAll fn (dropCR <$> lines) st = Some st' ->
      streamBytes w hasData fn st = (st', dropCR <$> lines, None)) /\
  (forall (st st1 st2 : S) pre line post err,
      lines = pre ++ line :: post ->
      handleAll fn (dropCR <$> pre) st = Some st1 ->
      fn (dropCR line) st1 = (st2, Some err) ->
      streamBytes w hasData fn st
      = (st2, dropCR <$> (pre ++ [line]), Some err)).
Proof.
  intros Hr Hs Hb Hl.
  assert (Body (scanned reply) = dropCR <$> lines) as Hbody.
  { unfold scanned. simpl. rewrite Hb, Scan_ndjson; [done|].
    eapply Forall_impl; [exact Hl|]. by intros line (Hc & Hlen & _). }
  assert (Forall (fun bts => unmarshalError bts = inr EmptyString)
            (Body (scanned reply))) as Hplain.
  { rewrite Hbody. apply Forall_fmap.
    eapply Forall_impl; [exact Hl|]. by intros line (_ & _ & Hu). }
  destruct (stream_plain_tokens unmarshalError (delivered w) hasData
              (scanned reply) fn (replied_responded _ _ _ Hr) Hs Hplain)
    as [Hall Hstop].
  unfold uniai.streamBytes. split.
  - intros st st' Hh. rewrite <- Hbody. apply Hall. by rewrite Hbody.
  - intros st st1 st2 pre line post err -> Hh Hf.
    rewrite fmap_app. simpl.
    apply (Hstop st st1 st2 (dropCR <$> pre) (dropCR line) (dropCR <$> post) err);
      [|done|done].
    by rewrite Hbody, fmap_app.
Qed.

(** X5.  On an answer with a status of 400 or more the callback is never
    invoked and its state is left as it was, whatever the body holds; and
    if the body starts with a line that is closed by a line feed and
    fits the buffer of the scanner, [stream] returns an error. *)
Theorem stream_error_status_never_invokes w hasData reply fn (st : S) :
  replied w hasData reply ->
  Code reply >= StatusBadRequest ->
  exists err,
    streamBytes w hasData fn st = (st, [], err) /\
    (forall line rest,
        Bytes reply = line +:+ String LF rest ->
        Contains line LF = false ->
        Z.of_nat (String.length line) < maxBufferSize ->
        err <> None).
Proof.
  intros Hr Hs.
  destruct (stream_error_status_tokens unmarshalError (delivered w) hasData
              (scanned reply) fn st (replied_responded _ _ _ Hr) Hs)
    as (err & Hrun & Herr).
  exists err. split; [done|]. intros line rest Hb Hc Hlen. apply Herr.
  unfold scanned. simpl. rewrite Hb. unfold Scan.
  rewrite scanFrom_line by (done || (simpl; lia)). done.
Qed.

(** X7.  [stream] returns nil only when the request went out, an answer
    came back, and every line the scanner delivered from the body decoded
    with an empty [error] field and was accepted by the callback, which
    saw these lines in order; the status was below 400 unless no line
    was delivered.  The lines delivered are those [Scan] finds with a
    buffer of [maxBufferSize] bytes: nil does not tell that the body
    was read to its end. *)
Theorem stream_nil_only_if_scanned_clean w hasData fn (st st' : S) calls :
  streamBytes w hasData fn st = (st', calls, None) ->
  exists reply,
    replied w hasData reply /\
    calls = (Scan maxBufferSize (Bytes reply)).1 /\
    handleAll fn calls st = Some st' /\
    Forall (fun bts => unmarshalError bts = inr EmptyString) calls /\
    (calls <> [] -> Code reply < StatusBadRequest).
Proof.
  intros Hrun.
  destruct (stream_nil_tokens unmarshalError _ _ _ _ _ _ Hrun)
    as (response & (Hm & Hn & Hd) & -> & Hh & Hp & Hs).
  simpl in Hm, Hn, Hd.
  destruct (Answered w) as [e|reply] eqn:Ha; [done|].
  injection Hd as <-. exists reply. by repeat split.
Qed.

End StreamBytes.

Section StreamBytesRuns.

Import strings bufio uniai spec props.

Lemma longLine_plain :
  Contains longLine LF = false /\
  Z.of_nat (String.length longLine) = maxBufferSize /\
  demoUnmarshalError (dropCR longLine) = inr EmptyString.
Proof.
  split; [by apply bytesOf_Contains|]. split.
  - unfold longLine. by rewrite bytesOf_length.
  - unfold longLine. change 512000%N with (N.succ 511999).
    rewrite bytesOf_succ.
    destruct (dropCR_head "x" (bytesOf 511999 "x")) as (t & ->); done.
Qed.

(** A body of three lines that all decode with an empty [error] field,
    under the status 200 and with a callback that accepts every line but
    [stop]: the second line is [maxBufferSize] bytes long, the callback
    is invoked on the first line only, and [stream] returns nil. *)
Lemma stream_long_line_cut :
  Forall (fun line => Contains line LF = false /\
                      demoUnmarshalError (dropCR line) = inr EmptyString)
    ["a"; longLine; "c"] /\
  uniai.streamBytes demoUnmarshalError (demoWire 200 longBody) true
    demoHandler 0%nat
  = (1%nat, ["a"], None).
Proof.
  split.
  - apply Forall_cons. split; [split; reflexivity|].
    apply Forall_cons. split.
    { split; [exact (proj1 longLine_plain)|exact (proj2 (proj2 longLine_plain))]. }
    apply Forall_cons. split; [split; reflexivity|]. constructor.
  - assert (Scan maxBufferSize longBody = (["a"], Some ErrTooLong)) as Hscan.
    { apply (Scan_ndjson_long maxBufferSize ["a"; longLine; "c"]
               ["a"] longLine ["c"] eq_refl).
      - apply Forall_singleton. split; [reflexivity|].
        unfold maxBufferSize, KiloByte, Byte. simpl. lia.
      - exact (proj1 longLine_plain).
      - rewrite (proj1 (proj2 longLine_plain)).
        unfold maxBufferSize, KiloByte, Byte. lia. }
    unfold uniai.streamBytes.
    rewrite (stream_responded demoUnmarshalError (delivered (demoWire 200 longBody))
               true (scanned {| Code := 200; Reason := "status";
                                Bytes := longBody |}))
      by (repeat split).
    change (Body (scanned {| Code := 200; Reason := "status"; Bytes := longBody |}))
      with (Scan maxBufferSize longBody).1.
    rewrite Hscan. reflexivity.
Qed.

Lemma stream_lines_within_ceiling_witness :
  uniai.streamBytes demoUnmarshalError (demoWire 200 (ndjson ["a"; "b"; "c"]))
    true demoHandler 0%nat
  = (3%nat, ["a"; "b"; "c"], None) /\
  uniai.streamBytes demoUnmarshalError (demoWire 200 (ndjson ["a"; "stop"; "c"]))
    true demoHandler 0%nat
  = (2%nat, ["a"; "stop"], Some (errorString "enough")).
Proof.
  split.
  - refine (proj1 (stream_lines_within_ceiling demoUnmarshalError
             (demoWire 200 (ndjson ["a"; "b"; "c"])) true
             {| Code := 200; Reason := "status"; Bytes := ndjson ["a"; "b"; "c"] |}
             ["a"; "b"; "c"] demoHandler _ _ _ _) 0%nat 3%nat _).
    + repeat split.
    + unfold StatusBadRequest. simpl. lia.
    + reflexivity.
    + repeat constructor; unfold maxBufferSize, KiloByte, Byte; simpl; lia.
    + reflexivity.
  - refine (proj2 (stream_lines_within_ceiling demoUnmarshalError
             (demoWire 200 (ndjson ["a"; "stop"; "c"])) true
             {| Code := 200; Reason := "status";
                Bytes := ndjson ["a"; "stop"; "c"] |}
             ["a"; "stop"; "c"] demoHandler _ _ _ _) 0%nat 1%nat 2%nat
             ["a"] "stop" ["c"] (errorString "enough") _ _ _).
    + repeat split.
    + unfold StatusBadRequest. simpl. lia.
    + reflexivity.
    + repeat constructor; unfold maxBufferSize, KiloByte, Byte; simpl; lia.
    + reflexivity.
    + reflexivity.
    + reflexivity.
Defined.

Lemma stream_error_status_never_invokes_witness :
  exists err,
    uniai.streamBytes demoUnmarshalError (demoWire 404 (ndjson ["a"; "b"])) true
      demoHandler 0%nat
    = (0%nat, [], err) /\
    (forall line rest,
        ndjson ["a"; "b"] = line +:+ String LF rest ->
        Contains line LF = false ->
        Z.of_nat (String.length line) < maxBufferSize ->
        err <> None).
Proof.
  apply (stream_error_status_never_invokes demoUnmarshalError
           (demoWire 404 (ndjson ["a"; "b"])) true
           {| Code := 404; Reason := "status"; Bytes := ndjson ["a"; "b"] |}).
  - repeat split.
  - unfold StatusBadRequest. simpl. lia.
Defined.

Lemma stream_nil_only_if_scanned_clean_witness :
  exists reply,
    replied (demoWire 200 (ndjson ["a"; "b"])) true reply /\
    ["a"; "b"] = (Scan maxBufferSize (Bytes reply)).1 /\
    handleAll demoHandler ["a"; "b"] 0%nat = Some 2%nat /\
    Forall (fun bts => demoUnmarshalError bts = inr EmptyString) ["a"; "b"] /\
    (["a"; "b"] <> [] -> Code reply < StatusBadRequest).
Proof.
  apply (stream_nil_only_if_scanned_clean demoUnmarshalError
           (demoWire 200 (ndjson ["a"; "b"])) true demoHandler 0%nat 2%nat
           ["a"; "b"]).
  reflexivity.
Defined.

End StreamBytesRuns.

Section GenerateMore.

Import uniai spec props.

(** X9.  In [Generate], when a line passes the probe but does not decode
    into an event, the call ends with that decoding error as it is: the
    caller's callback has seen the events before it, is not invoked for
    this line, and no later line is read. *)
Theorem Generate_undecodable_event {S Event : Type}
    (unmarshalError : string -> error + string)
    (unmarshalEvent : string -> error + Event)
    t response (fn : Event -> S -> S * option error) pre bts post err
    (st st1 : S) :
  responded t true response ->
  StatusCode response < StatusBadRequest ->
  Forall (fun bts => unmarshalError bts = inr EmptyString) (Body response) ->
  Body response = pre ++ bts :: post ->
  handleAll (decoding unmarshalEvent fn) pre st = Some st1 ->
  unmarshalEvent bts = inl err ->
  Generate unmarshalError Event unmarshalEvent t fn st
  = (st1, pre ++ [bts], Some err).
Proof.
  intros Hr Hs Hl Hb Hh Hu. unfold Generate.
  change (stream unmarshalError t true (decoding unmarshalEvent fn) st
          = (st1, pre ++ [bts], Some err)).
  rewrite (stream_responded _ _ _ _ _ _ Hr). rewrite Hb in Hl |- *.
  apply Forall_app in Hl as [Hpre Hpost].
  apply Forall_cons in Hpost as [Hbts _].
  rewrite (scanLoop_app _ _ _ _ _ _ _ pre
             (scanLoop_plain_all _ _ _ _ _ _ Hs Hpre Hh)).
  simpl. rewrite Hbts.
  destruct (decide (EmptyString <> EmptyString)); [done|].
  destruct (decide (StatusCode response >= StatusBadRequest)); [lia|].
  unfold decoding at 1. by rewrite Hu.
Qed.

Lemma Generate_undecodable_event_witness :
  Generate demoUnmarshalError string demoUnmarshalEvent
    (demoTransport 200 ["a"; "?x"; "c"]) demoEventHandler []
  = (["a"], ["a"; "?x"], Some (errorString "bad event")).
Proof.
  apply (Generate_undecodable_event demoUnmarshalError demoUnmarshalEvent
           (demoTransport 200 ["a"; "?x"; "c"])
           {| StatusCode := 200; Status := "status"; Body := ["a"; "?x"; "c"] |}
           demoEventHandler ["a"] "?x" ["c"] (errorString "bad event") [] ["a"]).
  - repeat split.
  - unfold StatusBadRequest. simpl. lia.
  - repeat constructor.
  - reflexivity.
  - reflexivity.
  - reflexivity.
Defined.

End GenerateMore.

(** ** More on the page loop *)

Section SchedulerMore.

Import cli cmd spec props.

Context {O Page Image : Type} (platform : Platform O Page Image).

Local Abbreviation store := (@store O).
Local Abbreviation machine := (@machine O).

Lemma standing_find pcs (ws : list (Z * workerPc)) :
  (0 < standing pcs ws)%nat ->
  exists i p pc, ws !! i = Some (p, pc) /\ pc ∈ pcs.
Proof.
  induction ws as [|[q c] ws IH]; [unfold standing; simpl; lia|].
  rewrite standing_cons. unfold weight.
  destruct (bool_decide (c ∈ pcs)) eqn:E.
  - intros _. apply bool_decide_eq_true in E. by exists 0%nat, q, c.
  - simpl. intros H. destruct (IH H) as (i & p & pc & Hi & Hpc).
    by exists (S i), p, pc.
Qed.

(** A worker that has not run to its end can take its next turn. *)
Lemma worker_can_step numPages dir pageNumbers (m : machine) i p pc :
  machineOK numPages dir pageNumbers m ->
  workers m !! i = Some (p, pc) -> pc <> Exited ->
  exists m', step platform numPages dir m m'.
Proof.
  intros [Halive Hsem Hlim Hwg Hjoin Hslots Hadd Hrange _] Hi Hpc.
  destruct pc; [| | |done].
  - assert (1 <= p <= numPages) as Hp.
    { rewrite Forall_forall in Hrange.
      apply (Hrange (p, AtBody)). by eapply list_elem_of_lookup_2. }
    destruct (renderInto_in_range platform _ dir _ _ Hslots Hp) as (s' & Hrun & _).
    eexists. by eapply step_body.
  - pose proof (standing_pos [AtBody; AtRelease] _ _ _ _ Hi
                  ltac:(repeat constructor)) as Hpos.
    destruct (sem m) as [|sm] eqn:Hs; [lia|].
    eexists. by eapply step_release.
  - pose proof (standing_pos [AtBody; AtRelease; AtDone] _ _ _ _ Hi
                  ltac:(repeat constructor)) as Hpos.
    eexists. eapply step_done; [done|done|lia].
Qed.

(** X10.  The parallel loop cannot get stuck: in every state it can
    reach, unless the main goroutine is already past [wg.Wait()], some
    goroutine can take a turn.  A full [sem] always has a worker that will
    free a slot, and a positive [wg] a worker that will count down. *)
Theorem parallel_no_deadlock numPages dir pageNumbers (w : O) (m : machine) :
  reachable platform numPages dir (initial pageNumbers (fresh numPages w)) m ->
  main m <> Joined ->
  exists m', step platform numPages dir m m'.
Proof.
  intros Hreach Hnj.
  pose proof (reachable_machineOK platform _ _ _ _ _ Hreach) as Hok.
  pose proof Hok as [Halive Hsem Hlim Hwg _ _ _ _ _].
  destruct m as [pc ws sm wgc s]. simpl in *.
  destruct pc as [[|q rest]|q rest|q rest| |pn]; simpl in *; try done.
  - destruct (decide (wgc = 0)) as [->|Hne].
    + eexists. apply step_wait.
    + destruct (standing_find [AtBody; AtRelease; AtDone] ws ltac:(lia))
        as (i & p & pc & Hi & Hpc).
      apply (worker_can_step numPages dir pageNumbers _ i p pc Hok Hi).
      intros ->. rewrite !elem_of_cons in Hpc.
      destruct Hpc as [|[|[|Hn]]]; try done. by apply elem_of_nil in Hn.
  - destruct (decide (q < 1 \/ q > numPages)).
    + eexists. by apply step_skip.
    + eexists. by apply step_add.
  - destruct (decide (sm < concurrencyLimit)%nat) as [Hlt|Hfull].
    + eexists. by apply step_acquire.
    + unfold concurrencyLimit in *.
      destruct (standing_find [AtBody; AtRelease] ws ltac:(lia))
        as (i & p & pc & Hi & Hpc).
      apply (worker_can_step numPages dir pageNumbers _ i p pc Hok Hi).
      intros ->. rewrite !elem_of_cons in Hpc.
      destruct Hpc as [|[|Hn]]; try done. by apply elem_of_nil in Hn.
  - eexists. apply step_go.
Qed.

Lemma turns_insert (ws : list (Z * workerPc)) i p pc pc' :
  ws !! i = Some (p, pc) ->
  (list_sum (turnsLeft <$> (<[i := (p, pc')]> ws).*2) + turnsLeft pc
   = list_sum (turnsLeft <$> ws.*2) + turnsLeft pc')%nat.
Proof.
  revert i. induction ws as [|[q c] ws IH]; intros [|i]; csimpl; try done.
  - intros [= -> ->]. lia.
  - intros Hi. specialize (IH i Hi). lia.
Qed.

(** Every turn of a sound state brings the loop nearer to its end. *)
Lemma step_turnsBound numPages dir pageNumbers (m m' : machine) :
  machineOK numPages dir pageNumbers m -> step platform numPages dir m m' ->
  (turnsBound m' < turnsBound m)%nat.
Proof.
  intros Hok Hstep. pose proof (machineOK_step platform _ _ _ _ _ Hok Hstep) as Hok'.
  destruct Hok' as [Halive' _ _ _ _ _ _ _ _]. clear Hok.
  destruct Hstep as
    [ pageNum rest ws sm w s H
    | pageNum rest ws sm w s H
    | pageNum rest ws sm w s H
    | pageNum rest ws sm w s
    | ws sm s
    | i pageNum m s' H H0 H1
    | i pageNum m pn H H0 H1
    | i pageNum m sm H H0 H1
    | i pageNum m H H0 H1
    | i pageNum m H H0 H1 ];
    unfold turnsBound; simpl in *; try done; try lia.
  - rewrite !fmap_app, list_sum_app. simpl. lia.
  - pose proof (turns_insert _ _ _ _ AtRelease H0). simpl in *.
    destruct (main m); simpl in *; try done; lia.
  - pose proof (turns_insert _ _ _ _ AtDone H0). simpl in *.
    destruct (main m); simpl in *; try done; lia.
  - pose proof (turns_insert _ _ _ _ Exited H0). simpl in *.
    destruct (main m); simpl in *; try done; lia.
Qed.

Lemma reachableIn_reachable numPages dir (m0 m : machine) n :
  reachableIn platform numPages dir m0 n m -> reachable platform numPages dir m0 m.
Proof.
  induction 1; [apply reachable_start|by eapply reachable_step].
Qed.

(** X11.  Every run of the parallel loop is short: a state reached after
    [n] turns has [n <= 6 * len(pageNumbers) + 1], and the turns it has
    left are bounded by what remains of that budget. *)
Theorem parallel_turns_bounded numPages dir pageNumbers (w : O) (m : machine) n :
  reachableIn platform numPages dir (initial pageNumbers (fresh numPages w)) n m ->
  (n + turnsBound m <= 6 * length pageNumbers + 1)%nat.
Proof.
  induction 1 as [|n m m' Hreach IH Hstep].
  - unfold turnsBound. simpl. lia.
  - apply reachableIn_reachable in Hreach.
    pose proof (reachable_machineOK platform _ _ _ _ _ Hreach) as Hok.
    pose proof (step_turnsBound _ _ _ _ _ Hok Hstep). lia.
Qed.

(** What the sequential loop prints, page by page. *)
Lemma sequentialLoop_reports numPages dir pageNumbers (s s' : store) :
  sequentialLoop platform numPages dir pageNumbers s = Returned s' ->
  exists lines, console s' = console s ++ lines /\
                Forall2 (reports numPages dir) pageNumbers lines.
Proof.
  revert s. induction pageNumbers as [|q rest IH]; intros s; simpl.
  - intros [= <-]. exists []. by rewrite app_nil_r.
  - destruct (decide (q < 1 \/ q > numPages)) as [Hout|Hin].
    + intros Hrun. destruct (IH _ Hrun) as (lines & Hc & Hl).
      exists (PageOutOfRange q :: lines). simpl in Hc.
      rewrite <- app_assoc in Hc. split; [done|]. constructor; [|done].
      unfold reports. by destruct (decide (q < 1 \/ q > numPages)).
    + destruct (renderInto platform dir q s) as [s1| |] eqn:Hbody; simpl; try done.
      intros Hrun. destruct (IH _ Hrun) as (lines & Hc & Hl).
      pose proof (renderInto_returned platform _ _ _ _ Hbody) as Heff.
      assert (exists m, console s1 = console s ++ [m] /\ reports numPages dir q m)
        as (m & Hm & Hrep).
      { unfold reports. destruct (decide (q < 1 \/ q > numPages)); [done|].
        destruct Heff as [err w|err w|w _]; eexists; (split; [reflexivity|]);
          eauto. }
      exists (m :: lines). rewrite Hc, Hm, <- app_assoc. split; [done|].
      by constructor.
Qed.

(** X12.  The sequential loop works strictly in the order of the request:
    started on a fresh memory it prints exactly one line per requested
    page, the k-th line being about the k-th page: the warning for a page
    out of range, else a failure of [GetPage] or of the render, or the
    report of the render with its file. *)
Theorem sequentialLoop_in_order numPages dir pageNumbers (w : O) (s : store) :
  sequentialLoop platform numPages dir pageNumbers (fresh numPages w) = Returned s ->
  Forall2 (reports numPages dir) pageNumbers (console s).
Proof.
  intros Hrun. destruct (sequentialLoop_reports _ _ _ _ _ Hrun) as (lines & Hc & Hl).
  simpl in Hc. by rewrite Hc.
Qed.

End SchedulerMore.

Section SchedulerMoreRuns.

Import cli cmd spec props.

Lemma parallel_no_deadlock_witness :
  exists m',
    step demoPlatform 2 "out/doc"
      {| main := AtLoop [9]; workers := [(1, AtBody)]; sem := 1; wg := 1;
         mem := fresh 2 ([] : list string) |} m'.
Proof.
  apply (parallel_no_deadlock demoPlatform 2 "out/doc" [1; 9] []); [|done].
  eapply reachable_step; [eapply reachable_step; [eapply reachable_step;
    [apply reachable_start|]|]|].
  - apply step_add. lia.
  - apply step_acquire. unfold concurrencyLimit. lia.
  - apply (step_go demoPlatform 2 "out/doc" 1 [9] [] 1 1).
Defined.

Lemma parallel_turns_bounded_witness :
  (3 + turnsBound {| main := AtLoop [9%Z]; workers := [(1%Z, AtBody)]; sem := 1;
                     wg := 1%Z; mem := fresh 2%Z ([] : list string) |}
   <= 6 * length [1%Z; 9%Z] + 1)%nat.
Proof.
  apply (parallel_turns_bounded demoPlatform 2 "out/doc" [1; 9] []).
  eapply reachableIn_step; [eapply reachableIn_step; [eapply reachableIn_step;
    [apply reachableIn_start|]|]|].
  - apply step_add. lia.
  - apply step_acquire. unfold concurrencyLimit. lia.
  - apply (step_go demoPlatform 2 "out/doc" 1 [9] [] 1 1).
Defined.

Lemma sequentialLoop_in_order_witness :
  Forall2 (reports 5 "out") [1; 3; 7]
    [ RenderedPage 1 "out/page_1.jpg"; RenderedPage 3 "out/page_3.jpg";
      PageOutOfRange 7 ].
Proof.
  apply (sequentialLoop_in_order demoPlatform 5 "out" [1; 3; 7] []
           {| renderedPages :=
                [ {| pageNum := 1; filePath := "out/page_1.jpg" |}; emptySlot;
                  {| pageNum := 3; filePath := "out/page_3.jpg" |};
                  emptySlot; emptySlot ];
              console :=
                [ RenderedPage 1 "out/page_1.jpg";
                  RenderedPage 3 "out/page_3.jpg"; PageOutOfRange 7 ];
              world := ["out/page_1.jpg"; "out/page_3.jpg"] |}).
  reflexivity.
Defined.

Lemma runSequential_paths_witness :
  "out/page_1.jpg" = pagePath "out" 1 /\
  [{| pageNum := 1; filePath := "out/page_1.jpg" |}] !! Z.to_nat (1 - 1)
  = Some {| pageNum := 1; filePath := "out/page_1.jpg" |}.
Proof.
  apply (runSequential_paths demoPlatform 2 "report.pdf" "out" "describe"
           EmptyString 1 []
           {| renderedPages := [{| pageNum := 1; filePath := "out/page_1.jpg" |}];
              console := [RenderedPage 1 "out/page_1.jpg"];
              world := ["out/page_1.jpg"] |} 1 "out/page_1.jpg").
  - reflexivity.
  - simpl. by apply list_elem_of_singleton.
Defined.

Lemma runsParallel_paths_witness :
  "out/report/page_1.jpg" = pagePath (outDir "out" "report.pdf") 1 /\
  [{| pageNum := 1; filePath := "out/report/page_1.jpg" |}] !! Z.to_nat (1 - 1)
  = Some {| pageNum := 1; filePath := "out/report/page_1.jpg" |}.
Proof.
  apply (runsParallel_paths demoPlatform 2 "report.pdf" "out" "describe"
           EmptyString 1 []
           {| main := AtLoop []; workers := [(1, AtRelease)]; sem := 1; wg := 1;
              mem := {| renderedPages :=
                          [{| pageNum := 1; filePath := "out/report/page_1.jpg" |}];
                        console := [RenderedPage 1 "out/report/page_1.jpg"];
                        world := ["out/report/page_1.jpg"] |} |}
           1 "out/report/page_1.jpg").
  - exists [1], (fresh 1 []). split; [reflexivity|].
    eapply reachable_step; [eapply reachable_step; [eapply reachable_step;
      [eapply reachable_step; [apply reachable_start|]|]|]|].
    + apply step_add. lia.
    + apply step_acquire. unfold concurrencyLimit. lia.
    + apply (step_go demoPlatform 1 (outDir "out" "report.pdf") 1 [] [] 1 1).
    + apply (step_body demoPlatform 1 (outDir "out" "report.pdf") 0 1
               {| main := AtLoop []; workers := [(1, AtBody)]; sem := 1;
                  wg := 1; mem := fresh 1 [] |}); [done|reflexivity|reflexivity].
  - simpl. by apply list_elem_of_singleton.
Defined.

End SchedulerMoreRuns.

(** ** The files of the pages *)

Section PageFiles.

Import cli spec.

Lemma string_length_app (s t : string) :
  String.length (s +:+ t) = (String.length s + String.length t)%nat.
Proof. induction s as [|a s IH]; simpl; [done|]. by rewrite IH. Qed.

Lemma string_app_inv_tail (s1 s2 t : string) : s1 +:+ t = s2 +:+ t -> s1 = s2.
Proof.
  revert s2. induction s1 as [|a s1 IH]; intros [|b s2] H.
  - done.
  - apply (f_equal String.length) in H.
    rewrite !string_length_app in H. simpl in H. lia.
  - apply (f_equal String.length) in H.
    rewrite !string_length_app in H. simpl in H. lia.
  - injection H as -> H. f_equal. by apply IH.
Qed.

(** X15.  Two different pages never share a file: in one directory the
    paths of pages [p] and [q] differ whenever [p] and [q] do, so a render
    cannot overwrite the image of another page. *)
Theorem pagePath_distinct dir p q : p <> q -> pagePath dir p <> pagePath dir q.
Proof.
  intros Hne Heq. apply Hne. unfold pagePath, pageFileName in Heq.
  apply (inj (String.append dir)) in Heq.
  apply (inj (String.append "/page_")) in Heq.
  apply string_app_inv_tail in Heq. by apply (inj pretty) in Heq.
Qed.

Lemma pagePath_distinct_witness : pagePath "out" 1 <> pagePath "out" 11.
Proof. apply (pagePath_distinct "out" 1 11). lia. Defined.

End PageFiles.

(** ** The client and its plain calls *)

Section ClientFacts.

Import uniai uniai_client base64 props.

Context {URL HTTPClient : Type}.
Context (urlParse : string -> error + URL) (JoinPath : URL -> string -> URL)
        (DefaultClient : HTTPClient) (userAgent : string)
        (newRequestError : string -> URL -> option error)
        (Do : HTTPClient -> @Request URL -> error + Answer)
        (unmarshalStatusError :
           string -> StatusErrorValue -> StatusErrorValue * option error).

Local Abbreviation NewClient := (NewClient urlParse DefaultClient).
Local Abbreviation requestHeader := (@requestHeader URL HTTPClient userAgent).
Local Abbreviation checkError := (checkError unmarshalStatusError).
Local Abbreviation do :=
  (@do URL HTTPClient JoinPath userAgent newRequestError Do unmarshalStatusError).
Local Abbreviation answered :=
  (@answered URL HTTPClient JoinPath userAgent newRequestError Do).

Lemma EncodeToString_nonempty src :
  src <> EmptyString -> EncodeToString src <> EmptyString.
Proof. destruct src as [|a [|b [|c rest]]]; done. Qed.

(** The encoding has four letters for every three bytes begun. *)
Lemma EncodeToString_length src :
  String.length (EncodeToString src) = (4 * ((String.length src + 2) / 3))%nat.
Proof.
  assert (forall n src, (String.length src <= n)%nat ->
            String.length (EncodeToString src)
            = (4 * ((String.length src + 2) / 3))%nat) as H.
  { intros n. induction n as [|n IH]; intros [|a [|b [|c rest]]] Hn;
      try done; simpl in Hn; try lia.
    change (EncodeToString (String a (String b (String c rest))))
      with (String (sextet (N.lor (N.lor (N.shiftl (byte a) 16)
                                     (N.shiftl (byte b) 8)) (byte c)) 18)
             (String (sextet (N.lor (N.lor (N.shiftl (byte a) 16)
                                       (N.shiftl (byte b) 8)) (byte c)) 12)
               (String (sextet (N.lor (N.lor (N.shiftl (byte a) 16)
                                         (N.shiftl (byte b) 8)) (byte c)) 6)
                 (String (sextet (N.lor (N.lor (N.shiftl (byte a) 16)
                                           (N.shiftl (byte b) 8)) (byte c)) 0)
                   (EncodeToString rest))))).
    cbn [String.length]. rewrite IH by lia.
    replace (S (S (S (String.length rest))) + 2)%nat
      with (1 * 3 + (String.length rest + 2))%nat by lia.
    rewrite Nat.div_add_l by lia. lia. }
  by apply (H (String.length src)).
Qed.

(** X16.  [NewClient] hands out a client for a non-empty credential only,
    and every client it hands out sends the credential with each request:
    the headers of [do] and of [stream] both hold
    Authorization: Basic followed by the base64 text of the credential,
    which is not empty. *)
Theorem NewClient_authorization rawURL httpClient credential c accept :
  NewClient rawURL httpClient credential = inr c ->
  credential <> EmptyString /\
  authBasic c = EncodeToString credential /\
  authBasic c <> EmptyString /\
  requestHeader accept c !! "Authorization"
  = Some ("Basic " +:+ EncodeToString credential).
Proof.
  unfold uniai_client.NewClient.
  destruct (decide (credential = EmptyString)) as [|Hne]; [done|].
  assert (forall c : Client,
             authBasic c = EncodeToString credential ->
             credential <> EmptyString /\
             authBasic c = EncodeToString credential /\
             authBasic c <> EmptyString /\
             requestHeader accept c !! "Authorization"
             = Some ("Basic " +:+ EncodeToString credential)) as Hc.
  { intros c' Hauth. split; [done|]. split; [done|].
    assert (authBasic c' <> EmptyString) as Hn.
    { rewrite Hauth. by apply EncodeToString_nonempty. }
    split; [done|]. unfold uniai_client.requestHeader.
    destruct (decide (authBasic c' <> EmptyString)); [|done].
    by rewrite lookup_insert_eq, Hauth. }
  destruct (decide (rawURL = EmptyString)).
  - destruct (urlParse API_BASEURL); [done|]. intros [= <-]. by apply Hc.
  - intros [= <-]. by apply Hc.
Qed.

(** X17.  A base URL that does not parse is not reported: [NewClient]
    drops the error of [url.Parse] and returns a client without a base
    URL.  Every later [do] and [stream] on that client dies on the nil
    pointer, unless marshalling the request fails first. *)
Theorem NewClient_unparsed_url {T S : Type} rawURL httpClient credential err
    (unmarshal : string -> T -> T * option error) unmarshalError :
  credential <> EmptyString -> rawURL <> EmptyString ->
  urlParse rawURL = inl err ->
  exists c,
    NewClient rawURL httpClient credential = inr c /\
    baseURL c = None /\
    (forall method path data respData reqBody,
        reqBodyOf data = inr reqBody ->
        do unmarshal c method path data respData = NilURL) /\
    (forall (t : transport) (hasData : bool) (fn : @handler S) (st : S),
        (if hasData then Marshal t else None) = None ->
        Client_stream unmarshalError c t hasData fn st = NilURL).
Proof.
  intros Hc Hu Hp. unfold uniai_client.NewClient.
  destruct (decide (credential = EmptyString)); [done|].
  destruct (decide (rawURL = EmptyString)); [done|].
  rewrite Hp. eexists. split; [reflexivity|]. split; [reflexivity|]. split.
  - intros method path data respData reqBody Hb. unfold uniai_client.do.
    by rewrite Hb.
  - intros t hasData fn st Hm. unfold Client_stream. by rewrite Hm.
Qed.

(** X18.  [do] turns every answer with a status of 400 or more into a
    [StatusError], whatever the body is, the empty body included; the
    value behind [respData] is not touched.  (The streaming calls return
    nil on such an answer when the body is empty.) *)
Theorem do_error_status {T : Type} (unmarshal : string -> T -> T * option error)
    c method path data respData respObj body :
  answered c method path data respObj body ->
  AnswerCode respObj >= StatusBadRequest ->
  exists code status message,
    do unmarshal c method path data respData
    = Finished (respData, Some (StatusError code status message)).
Proof.
  intros (base & reqBody & Hb & Hbase & Hn & Hd & Hr) Hcode.
  unfold uniai_client.do. rewrite Hb, Hbase, Hn, Hd, Hr.
  unfold uniai_client.checkError.
  destruct (decide (AnswerCode respObj < StatusBadRequest)); [lia|].
  destruct (unmarshalStatusError body _) as [apiError [e|]]; by eexists _, _, _.
Qed.

(** A nil from [do] means an answer below 400 was received and read. *)
Lemma do_nil_answered {T : Type} (unmarshal : string -> T -> T * option error)
    c method path data respData result :
  do unmarshal c method path data respData = Finished (result, None) ->
  exists respObj body,
    answered c method path data respObj body /\
    AnswerCode respObj < StatusBadRequest.
Proof.
  unfold uniai_client.do, props.answered.
  destruct (reqBodyOf data) as [e|reqBody] eqn:Hb; [done|].
  destruct (baseURL c) as [base|] eqn:Hbase; [|done].
  destruct (newRequestError method (JoinPath base path)) as [e|] eqn:Hn; [done|].
  destruct (Do _ _) as [e|respObj] eqn:Hd; [done|].
  destruct (ReadAll respObj) as [e|body] eqn:Hr; [done|].
  unfold uniai_client.checkError.
  destruct (decide (AnswerCode respObj < StatusBadRequest)) as [Hlt|].
  2:{ by destruct (unmarshalStatusError body _) as [apiError [e|]]. }
  intros _. exists respObj, body. split; [|done].
  exists base, reqBody. by rewrite Hd.
Qed.

(** X19.  [do] returns nil only for an answer that was received and read
    in full with a status below 400; then the value behind [respData] is
    left as it was when the body is empty or [respData] is nil, and is
    what the decoder made of the body, without an error, otherwise. *)
Theorem do_nil_only_if {T : Type} (unmarshal : string -> T -> T * option error)
    c method path data respData result :
  do unmarshal c method path data respData = Finished (result, None) ->
  exists respObj body,
    answered c method path data respObj body /\
    AnswerCode respObj < StatusBadRequest /\
    match respData with
    | Some target =>
        if decide (body = EmptyString) then result = respData
        else unmarshal body target = (default target result, None) /\
             result <> None
    | None => result = None
    end.
Proof.
  unfold uniai_client.do, props.answered.
  destruct (reqBodyOf data) as [e|reqBody] eqn:Hb; [done|].
  destruct (baseURL c) as [base|] eqn:Hbase; [|done].
  destruct (newRequestError method (JoinPath base path)) as [e|] eqn:Hn; [done|].
  destruct (Do _ _) as [e|respObj] eqn:Hd; [done|].
  destruct (ReadAll respObj) as [e|body] eqn:Hr; [done|].
  unfold uniai_client.checkError.
  destruct (decide (AnswerCode respObj < StatusBadRequest)) as [Hlt|].
  2:{ by destruct (unmarshalStatusError body _) as [apiError [e|]]. }
  intros Hrun. exists respObj, body. split.
  { exists base, reqBody. by rewrite Hd. }
  split; [done|]. destruct respData as [target|].
  - destruct (decide (body <> EmptyString)) as [Hne|He].
    + destruct (unmarshal body target) as [target' e'] eqn:Hu.
      injection Hrun as <- ->.
      destruct (decide (body = EmptyString)); [done|]. done.
    + injection Hrun as <-.
      destruct (decide (body = EmptyString)); [done|]. by destruct He.
  - by injection Hrun as <-.
Qed.

(** X20.  [Version] on an answer below 400: an empty body gives the empty
    version and no error; otherwise the decoded field, or, when decoding
    fails, the empty string beside the error, whatever the decoder had
    already written into the field. *)
Theorem Version_of_answer unmarshalVersion c respObj body :
  answered c "GET" "/api/version" NilData respObj body ->
  AnswerCode respObj < StatusBadRequest ->
  Version JoinPath userAgent newRequestError Do unmarshalStatusError
    unmarshalVersion c
  = Finished
      (if decide (body = EmptyString) then (EmptyString, None)
       else match unmarshalVersion body EmptyString with
            | (version, None) => (version, None)
            | (_, Some err) => (EmptyString, Some err)
            end).
Proof.
  intros (base & reqBody & Hb & Hbase & Hn & Hd & Hr) Hcode.
  unfold Version, uniai_client.do. rewrite Hb, Hbase, Hn, Hd, Hr.
  unfold uniai_client.checkError.
  destruct (decide (AnswerCode respObj < StatusBadRequest)); [|lia].
  destruct (decide (body <> EmptyString)) as [Hne|He].
  - destruct (decide (body = EmptyString)); [done|].
    by destruct (unmarshalVersion body EmptyString) as [v [e|]].
  - destruct (decide (body = EmptyString)); [done|]. by destruct He.
Qed.

(** X21.  [Heartbeat] returns nil exactly when the server answered the
    HEAD request on the root with a status below 400 and the answer could
    be read; nothing is decoded. *)
Theorem Heartbeat_nil_iff c :
  Heartbeat JoinPath userAgent newRequestError Do unmarshalStatusError c
  = Finished None <->
  exists respObj body,
    answered c "HEAD" "/" NilData respObj body /\
    AnswerCode respObj < StatusBadRequest.
Proof.
  unfold Heartbeat. split.
  - destruct (uniai_client.do _ _ _ _ _ _ _ _ _ _ _) as [[r e]|] eqn:Hdo; [|done].
    intros [= ->]. apply do_nil_answered in Hdo as (respObj & body & Ha & Hc).
    by exists respObj, body.
  - intros (respObj & body & (base & reqBody & Hb & Hbase & Hn & Hd & Hr) & Hc).
    unfold uniai_client.do. rewrite Hb, Hbase, Hn, Hd, Hr.
    unfold uniai_client.checkError.
    by destruct (decide (AnswerCode respObj < StatusBadRequest)).
Qed.

End ClientFacts.

Section ClientRuns.

Import uniai uniai_client base64 spec props.

(** The client [NewClient] builds for the credential user:pass and the
    base URL http://host, on the demonstration parser. *)
Lemma demo_client :
  NewClient demoParse tt "http://host" None "user:pass"
  = inr {| client := tt; baseURL := Some "http://host";
           authBasic := "dXNlcjpwYXNz" |}.
Proof. reflexivity. Qed.

Lemma NewClient_authorization_witness :
  requestHeader "agent" "application/x-ndjson"
    {| client := tt; baseURL := Some "http://host"; authBasic := "dXNlcjpwYXNz" |}
    !! "Authorization"
  = Some "Basic dXNlcjpwYXNz".
Proof.
  apply (NewClient_authorization demoParse tt "agent" "http://host" None
           "user:pass" _ "application/x-ndjson" demo_client).
Defined.

Lemma NewClient_unparsed_url_witness :
  exists c,
    NewClient demoParse tt "http://my host" None "user:pass" = inr c /\
    baseURL c = None.
Proof.
  destruct (NewClient_unparsed_url (T := string) (S := nat) demoParse
              String.append tt "agent" (fun _ _ => None) (demoServer 200 "{}")
              demoStatusDecode "http://my host" None "user:pass"
              (errorString "invalid character in URL") demoVersionDecode
              demoUnmarshalError)
    as (c & Hc & Hb & _); [done|done|reflexivity|].
  by exists c.
Defined.

Lemma demo_answered code body method path :
  answered String.append "agent" (fun _ _ => None) (demoServer code body)
    {| client := tt; baseURL := Some "http://host"; authBasic := "dXNlcjpwYXNz" |}
    method path NilData
    {| AnswerCode := code; ReadAll := inr body |} body.
Proof. by exists "http://host", None. Qed.

Lemma do_error_status_witness :
  exists code status message,
    do String.append "agent" (fun _ _ => None) (demoServer 404 EmptyString)
      demoStatusDecode demoVersionDecode
      {| client := tt; baseURL := Some "http://host"; authBasic := "dXNlcjpwYXNz" |}
      "GET" "/api/version" NilData (Some "before")
    = Finished (Some "before", Some (StatusError code status message)).
Proof.
  apply (do_error_status String.append "agent" (fun _ _ => None)
           (demoServer 404 EmptyString) demoStatusDecode demoVersionDecode
           _ "GET" "/api/version" NilData (Some "before")
           {| AnswerCode := 404; ReadAll := inr EmptyString |} EmptyString).
  - apply demo_answered.
  - unfold StatusBadRequest. simpl. lia.
Defined.

Lemma do_nil_only_if_witness :
  exists respObj body,
    answered String.append "agent" (fun _ _ => None) (demoServer 200 "{1}")
      {| client := tt; baseURL := Some "http://host"; authBasic := "dXNlcjpwYXNz" |}
      "GET" "/api/version" NilData respObj body /\
    AnswerCode respObj < StatusBadRequest /\
    (if decide (body = EmptyString) then Some "{1}" = Some "before"
     else demoVersionDecode body "before" = ("{1}", None) /\
          Some "{1}" <> None).
Proof.
  apply (do_nil_only_if String.append "agent" (fun _ _ => None)
           (demoServer 200 "{1}") demoStatusDecode demoVersionDecode
           {| client := tt; baseURL := Some "http://host";
              authBasic := "dXNlcjpwYXNz" |}
           "GET" "/api/version" NilData (Some "before") (Some "{1}")).
  reflexivity.
Defined.

Lemma Version_of_answer_witness :
  Version String.append "agent" (fun _ _ => None) (demoServer 200 "{1")
    demoStatusDecode demoVersionDecode
    {| client := tt; baseURL := Some "http://host"; authBasic := "dXNlcjpwYXNz" |}
  = Finished (EmptyString, Some (errorString "unexpected end of JSON input")).
Proof.
  apply (Version_of_answer String.append "agent" (fun _ _ => None)
           (demoServer 200 "{1") demoStatusDecode demoVersionDecode _
           {| AnswerCode := 200; ReadAll := inr "{1" |} "{1").
  - apply demo_answered.
  - unfold StatusBadRequest. simpl. lia.
Defined.

Lemma Heartbeat_nil_iff_witness :
  Heartbeat String.append "agent" (fun _ _ => None) (demoServer 204 EmptyString)
    demoStatusDecode
    {| client := tt; baseURL := Some "http://host"; authBasic := "dXNlcjpwYXNz" |}
  = Finished None.
Proof.
  apply (Heartbeat_nil_iff String.append "agent" (fun _ _ => None)
           (demoServer 204 EmptyString) demoStatusDecode).
  exists {| AnswerCode := 204; ReadAll := inr EmptyString |}, EmptyString.
  split; [apply demo_answered|]. unfold StatusBadRequest. simpl. lia.
Defined.

End ClientRuns.

(** ** From the rendered pages to the answers *)

Section GenerateFacts.

Import uniai uniai_client cmd cmd_generate spec props.

Context {O Page Image Event URL HTTPClient : Type}.
Context (platform : Platform O Page Image)
        (ReadFile : string -> O -> O * (error + string))
        (exchange : GenerateRequest -> O -> O * wire)
        (unmarshalError : string -> error + string)
        (unmarshalEvent : string -> error + Event)
        (Response : Event -> string) (Done : Event -> bool)
        (Summary : Event -> list string).

Local Abbreviation genState := (@genState O Event).
Local Abbreviation funcResp := (@funcResp O Event Response Done Summary).
Local Abbreviation generatePage :=
  (@generatePage O Page Image Event URL HTTPClient platform ReadFile exchange
     unmarshalError unmarshalEvent Response Done Summary).
Local Abbreviation generateLoop :=
  (@generateLoop O Page Image Event URL HTTPClient platform ReadFile exchange
     unmarshalError unmarshalEvent Response Done Summary).

(** A property of the callback's state that every call of the callback
    keeps is kept by the scan. *)
Lemma scanLoop_keeps {S : Type} (I : S -> Prop) response (fn : @handler S)
    lines (st : S) :
  (forall bts s, I s -> I (fn bts s).1) -> I st ->
  I (scanLoop unmarshalError response fn lines st).1.1.
Proof.
  intros Hfn. revert st. induction lines as [|bts rest IH]; intros st Hst; simpl.
  - done.
  - destruct (unmarshalError bts) as [e|text]; [done|].
    destruct (decide (text <> EmptyString)); [done|].
    destruct (decide (StatusCode response >= StatusBadRequest)); [done|].
    pose proof (Hfn bts st Hst) as H1.
    destruct (fn bts st) as [st1 [e|]]; [done|]. simpl in H1.
    specialize (IH st1 H1).
    by destruct (scanLoop unmarshalError response fn rest st1) as [[??]?].
Qed.

Lemma stream_keeps {S : Type} (I : S -> Prop) t hasData (fn : @handler S) (st : S) :
  (forall bts s, I s -> I (fn bts s).1) -> I st ->
  I (stream unmarshalError t hasData fn st).1.1.
Proof.
  intros Hfn Hst. unfold stream.
  destruct (if hasData then Marshal t else None); [done|].
  destruct (NewRequest t); [done|]. destruct (Do t); [done|].
  by apply scanLoop_keeps.
Qed.

Lemma wrote_refl k (st : genState) : stderr st = k -> wrote k st st.
Proof.
  intros Hk. repeat split; try done. exists []. by rewrite app_nil_r.
Qed.

(** The texts of a summary go to [os.Stderr], and nothing else changes. *)
Lemma fprintAll_spec texts (s : genState) :
  stderr (fprintAll texts s) = stderr s /\
  written (fprintAll texts s) = written s ++ (pair (stderr s) <$> texts) /\
  summarized (fprintAll texts s) = summarized s /\
  printed (fprintAll texts s) = printed s /\
  stdout (fprintAll texts s) = stdout s /\
  gworld (fprintAll texts s) = gworld s.
Proof.
  revert s. induction texts as [|text rest IH]; intros s; simpl.
  - by rewrite app_nil_r.
  - destruct (IH (fprint text s)) as (H1 & H2 & H3 & H4 & H5 & H6).
    unfold fprintAll in *. simpl. rewrite H1, H2, H3, H4, H5, H6. simpl.
    repeat split; try done. by rewrite <- app_assoc.
Qed.

Lemma wrote_funcResp k (st s : genState) resp :
  wrote k st s -> wrote k st (funcResp resp s).1.
Proof.
  intros (Hk & Hs & Hp & Ho & new & Hw & Hall).
  destruct s as [k' ws sm pr so gw]. simpl in *. subst k' ws.
  unfold cmd_generate.funcResp. destruct (Done resp); simpl.
  - destruct (fprintAll_spec (Summary resp)
                (fprint newline
                   (fprint (Response resp)
                      {| stderr := k; written := written st ++ new;
                         summarized := sm; printed := pr; stdout := so;
                         gworld := gw |})))
      as (H1 & H2 & H3 & H4 & H5 & H6).
    simpl in *. rewrite H1, H2, H4, H5.
    repeat split; try done.
    exists (new ++ [(k, Response resp)] ++ [(k, newline)]
              ++ (pair k <$> Summary resp)).
    rewrite <- !app_assoc. split; [done|].
    rewrite !Forall_app. repeat split; try done;
      try (by apply Forall_singleton).
    apply Forall_fmap. by apply Forall_true.
  - unfold fprint. simpl. repeat split; try done.
    exists (new ++ [(k, Response resp)]).
    split; [by rewrite <- !app_assoc|].
    rewrite !Forall_app. split; [done|]. by apply Forall_singleton.
Qed.

(** During [Generate] only the callback touches the state. *)
Lemma Client_Generate_wrote (c : @Client URL HTTPClient) t (st st' : genState)
    calls err :
  Client_Generate unmarshalError unmarshalEvent c t funcResp st
  = Finished (st', calls, err) ->
  wrote (stderr st) st st'.
Proof.
  unfold Client_Generate.
  destruct (Marshal t); [intros [= <- _ _]; by apply wrote_refl|].
  destruct (baseURL c); [|done]. intros [= Hrun].
  pose proof (stream_keeps (wrote (stderr st) st) t true
    (fun bts st0 => match unmarshalEvent bts with
                    | inl err0 => (st0, Some err0)
                    | inr resp => funcResp resp st0
                    end) st) as Hk.
  unfold Generate in Hrun. rewrite Hrun in Hk. apply Hk.
  - intros bts s Hs. destruct (unmarshalEvent bts); [done|].
    by apply wrote_funcResp.
  - by apply wrote_refl.
Qed.

Lemma saved_app ls1 ls2 : saved (ls1 ++ ls2) = saved ls1 ++ saved ls2.
Proof. unfold saved. by rewrite omap_app. Qed.

(** What one round of the loop leaves when it finishes: the page was
    announced first and no other; what was written since went to the sink
    of the round, which is [os.Stderr] as it was, or the response file of
    this page once [writeResponse] has set it. *)
Lemma generatePage_finished (c : @Client URL HTTPClient) writeResponse outDir
    prompt page (st st' : genState) :
  generatePage c writeResponse outDir prompt page st = Finished st' ->
  saved (printed st') = saved (printed st) ++ [(pageNum page, filePath page)] /\
  exists new,
    written st' = written st ++ new /\
    if writeResponse then
      (stderr st' = stderr st /\ new = []) \/
      (stderr st' = File (responseFilePath outDir (pageNum page)) /\
       Forall (fun e => e.1 = File (responseFilePath outDir (pageNum page))) new)
    else stderr st' = stderr st /\ Forall (fun e => e.1 = stderr st) new.
Proof.
  unfold cmd_generate.generatePage.
  destruct (ReadFile (filePath page) _) as [w1 [e|fb]].
  { intros [= <-]. simpl. rewrite !saved_app. simpl. rewrite app_nil_r.
    split; [done|]. exists []. rewrite app_nil_r. split; [done|].
    destruct writeResponse; [left|]; done. }
  destruct writeResponse.
  - unfold openResponse. simpl.
    destruct (ensureDir platform _ w1) as [w2 [e|]].
    { intros [= <-]. simpl. rewrite !saved_app. simpl. rewrite app_nil_r.
      split; [done|]. exists []. rewrite app_nil_r. split; [done|]. by left. }
    destruct (osCreate platform _ w2) as [w3 [e|]].
    { intros [= <-]. simpl. rewrite !saved_app. simpl. rewrite app_nil_r.
      split; [done|]. exists []. rewrite app_nil_r. split; [done|]. by left. }
    destruct (exchange _ _) as [w4 t].
    destruct (Client_Generate _ _ c (delivered t) _ _)
      as [[[st1 calls] err]|] eqn:Hgen;
      [|done].
    apply Client_Generate_wrote in Hgen
      as (_ & Hs & Hp & Ho & new & Hw & Hall). simpl in *.
    destruct err as [e|]; intros [= <-]; simpl; rewrite ?Hp;
      rewrite !saved_app; simpl; rewrite ?app_nil_r;
      (split; [done|]); exists new; (split; [done|]); by right.
  - simpl. destruct (exchange _ _) as [w4 t].
    destruct (Client_Generate _ _ c (delivered t) _ _)
      as [[[st1 calls] err]|] eqn:Hgen;
      [|done].
    apply Client_Generate_wrote in Hgen
      as (_ & Hs & Hp & Ho & new & Hw & Hall). simpl in *.
    destruct err as [e|]; intros [= <-]; simpl; rewrite ?Hp;
      rewrite !saved_app; simpl; rewrite ?app_nil_r;
      (split; [done|]); exists new; (split; [done|]); done.
Qed.

(** With a base URL a round always finishes. *)
Lemma generatePage_finishes (c : @Client URL HTTPClient) base writeResponse
    outDir prompt page (st : genState) :
  baseURL c = Some base ->
  exists st', generatePage c writeResponse outDir prompt page st = Finished st'.
Proof.
  intros Hb. unfold cmd_generate.generatePage.
  destruct (ReadFile (filePath page) _) as [w1 [e|fb]]; [by eexists|].
  destruct (if writeResponse then _ else _) as [st1|st1]; [by eexists|].
  destruct (exchange _ _) as [w4 t]. unfold Client_Generate. rewrite Hb.
  destruct (Marshal (delivered t)); [by eexists|].
  by destruct (Generate _ _ _ (delivered t) _ _) as [[st2 calls] [e|]]; eexists.
Qed.

(** X22.  The generation loop goes through every slot of [renderedPages]
    in order, the empty ones included, whatever was requested and whatever
    fails on the way: with a base URL it always finishes, and it has
    announced exactly the slots, each with its page number and file, one
    after the other. *)
Theorem generateLoop_visits_every_slot (c : @Client URL HTTPClient) base
    writeResponse outDir prompt pages (st : genState) :
  baseURL c = Some base ->
  exists st',
    generateLoop c writeResponse outDir prompt pages st = Finished st' /\
    saved (printed st')
    = saved (printed st) ++ ((fun page => (pageNum page, filePath page)) <$> pages).
Proof.
  intros Hb. revert st. induction pages as [|page rest IH]; intros st; simpl.
  - exists st. by rewrite app_nil_r.
  - destruct (generatePage_finishes c base writeResponse outDir prompt page st Hb)
      as (st1 & Hpage).
    rewrite Hpage. destruct (generatePage_finished _ _ _ _ _ _ _ Hpage) as [Hs _].
    destruct (IH st1) as (st' & Hrun & Hsaved).
    exists st'. split; [done|]. by rewrite Hsaved, Hs, <- app_assoc.
Qed.

(** X23.  Where the answers go.  Without [writeResponse], [os.Stderr] is
    never changed and every delta of the loop is written to it.  With
    [writeResponse], every delta of the loop is written to the response
    file [outDir/response/page_N.txt] of one of the slots. *)
Theorem generateLoop_routing (c : @Client URL HTTPClient) writeResponse outDir
    prompt pages (st st' : genState) :
  generateLoop c writeResponse outDir prompt pages st = Finished st' ->
  exists new,
    written st' = written st ++ new /\
    if writeResponse then
      Forall (fun e => exists page,
                  page ∈ pages /\
                  e.1 = File (responseFilePath outDir (pageNum page))) new
    else stderr st' = stderr st /\ Forall (fun e => e.1 = stderr st) new.
Proof.
  revert st. induction pages as [|page rest IH]; intros st; simpl.
  - intros [= <-]. exists []. rewrite app_nil_r. split; [done|].
    by destruct writeResponse.
  - destruct (generatePage c writeResponse outDir prompt page st)
      as [st1|] eqn:Hpage; [|done].
    intros Hrun. destruct (IH _ Hrun) as (new2 & Hw2 & Hr2).
    destruct (generatePage_finished _ _ _ _ _ _ _ Hpage) as (_ & new1 & Hw1 & Hr1).
    exists (new1 ++ new2). rewrite Hw2, Hw1, <- app_assoc. split; [done|].
    destruct writeResponse.
    + apply Forall_app. split.
      * destruct Hr1 as [[_ ->]|[_ Hall]]; [done|].
        eapply Forall_impl; [exact Hall|]. intros e He. exists page.
        split; [by apply elem_of_cons; left|done].
      * eapply Forall_impl; [exact Hr2|]. intros e (pg & Hin & He).
        exists pg. split; [by apply elem_of_cons; right|done].
    + destruct Hr1 as [Hs1 Hall1]. destruct Hr2 as [Hs2 Hall2].
      split; [congruence|]. apply Forall_app. split; [done|].
      by rewrite <- Hs1.
Qed.

(** The state after the callback took the events one after the other. *)
Lemma funcResp_events (st : genState) events :
  let st' := foldl (fun s e => (funcResp e s).1) st events in
  written st' = written st ++ deltas Response Done Summary (stderr st) events /\
  summarized st'
  = summarized st ++ ((fun e => (stderr st, e)) <$> List.filter Done events) /\
  stderr st' = stderr st /\ printed st' = printed st /\ stdout st' = stdout st.
Proof.
  revert st. induction events as [|e rest IH]; intros st; simpl.
  - by rewrite !app_nil_r.
  - destruct (IH (funcResp e st).1) as (Hw & Hs & Hk & Hp & Ho).
    rewrite Hw, Hs, Hk, Hp, Ho. clear IH Hw Hs Hk Hp Ho.
    unfold cmd_generate.funcResp. destruct (Done e); simpl.
    + destruct (fprintAll_spec (Summary e) (fprint newline (fprint (Response e) st)))
        as (H1 & H2 & H3 & H4 & H5 & H6).
      simpl in *. rewrite H1, H2, H3, H4, H5.
      by rewrite <- !app_assoc.
    + by rewrite <- !app_assoc.
Qed.

(** X24.  The deltas add up.  When the service answers below 400 with a
    body of lines that are each closed by a line feed, are shorter than
    the buffer of the scanner and decode as plain events, [Generate] with
    the loop's callback returns nil after the last line, and the callback
    has written to [os.Stderr], in order, the [Response] text of every
    event and, after each event that is done, a line break and the
    summary; what the command printed itself is left as it was. *)
Theorem Generate_accumulates_deltas (c : @Client URL HTTPClient) base w reply
    lines events (st : genState) :
  baseURL c = Some base ->
  replied w true reply ->
  Code reply < StatusBadRequest ->
  Bytes reply = bufio.ndjson lines ->
  Forall (plainLine unmarshalError) lines ->
  Forall2 (fun line e => unmarshalEvent (bufio.dropCR line) = inr e) lines events ->
  exists st',
    Client_Generate unmarshalError unmarshalEvent c (delivered w) funcResp st
    = Finished (st', bufio.dropCR <$> lines, None) /\
    written st' = written st ++ deltas Response Done Summary (stderr st) events /\
    summarized st'
    = summarized st ++ ((fun e => (stderr st, e)) <$> List.filter Done events) /\
    stderr st' = stderr st /\ printed st' = printed st.
Proof.
  intros Hb Hr Hs Hbytes Hplain Hev.
  exists (foldl (fun s e => (funcResp e s).1) st events).
  destruct (funcResp_events st events) as (Hw & Hsm & Hk & Hp & _).
  split; [|done].
  assert (Body (scanned reply) = bufio.dropCR <$> lines) as Hbody.
  { unfold scanned. simpl. rewrite Hbytes, Scan_ndjson; [done|].
    eapply Forall_impl; [exact Hplain|]. by intros line (Hc & Hlen & _). }
  pose proof (replied_responded _ _ _ Hr) as Hresp.
  unfold Client_Generate.
  replace (Marshal (delivered w)) with (@None error) by (symmetry; apply Hresp).
  rewrite Hb. f_equal. unfold Generate.
  rewrite (stream_responded unmarshalError (delivered w) true (scanned reply) _ _
             Hresp).
  rewrite Hbody. apply scanLoop_plain_all; [done| |].
  { apply Forall_fmap. eapply Forall_impl; [exact Hplain|].
    by intros line (_ & _ & Hu). }
  clear Hplain Hw Hsm Hk Hp Hbody Hbytes. revert st.
  induction Hev as [|line e lines events Hline _ IH]; intros st; simpl; [done|].
  rewrite Hline.
  assert (forall s, exists s1, funcResp e s = (s1, None)) as Hnil.
  { intros s. unfold cmd_generate.funcResp. destruct (Done e); by eexists. }
  destruct (Hnil st) as (s1 & Hs1). rewrite Hs1. simpl. apply IH.
Qed.

Context (urlParse : string -> error + URL) (DefaultClient : HTTPClient).

Local Abbreviation generateAll :=
  (@generateAll O Page Image Event URL HTTPClient platform ReadFile exchange
     unmarshalError unmarshalEvent Response Done Summary urlParse DefaultClient).

(** [NewClient] on the environment of the command, when API_AUTH is set
    and API_BASEURL parses. *)
Lemma NewClient_of_environment apiBaseURL apiAuth base :
  apiAuth <> EmptyString ->
  urlParse apiBaseURL = inr base ->
  NewClient urlParse DefaultClient apiBaseURL None apiAuth
  = inr {| client := DefaultClient; baseURL := Some base;
           authBasic := base64.EncodeToString apiAuth |}.
Proof.
  intros Ha Hu. unfold NewClient.
  destruct (decide (apiAuth = EmptyString)) as [|_]; [done|].
  destruct (decide (apiBaseURL = EmptyString)) as [->|_].
  - unfold API_BASEURL. by rewrite Hu.
  - by rewrite Hu.
Qed.

(** X25.  From [uniai.NewClient] on, the command comes to its end without
    a panic whenever API_AUTH is set and API_BASEURL parses (an unset
    API_BASEURL being parsed as the empty [API_BASEURL] constant): no
    failure to read a page, to create a response file or to generate stops
    it before the last slot. *)
Theorem generateAll_finishes apiBaseURL apiAuth base writeResponse outDir prompt
    pages (st : genState) :
  apiAuth <> EmptyString ->
  urlParse apiBaseURL = inr base ->
  exists st',
    generateAll apiBaseURL apiAuth writeResponse outDir prompt pages st
    = Finished st' /\
    saved (printed st')
    = saved (printed st) ++ ((fun page => (pageNum page, filePath page)) <$> pages).
Proof.
  intros Ha Hu. unfold cmd_generate.generateAll.
  rewrite (NewClient_of_environment _ _ _ Ha Hu).
  set (c := {| client := DefaultClient; baseURL := Some base;
               authBasic := base64.EncodeToString apiAuth |}).
  revert st. induction pages as [|page rest IH]; intros st; simpl.
  - exists st. by rewrite app_nil_r.
  - destruct (generatePage_finishes c base writeResponse outDir prompt page st
                eq_refl) as (st1 & Hpage).
    rewrite Hpage. destruct (IH st1) as (st' & Hrun & Hsaved).
    exists st'. split; [done|].
    destruct (generatePage_finished _ _ _ _ _ _ _ Hpage) as [Hs _].
    by rewrite Hsaved, Hs, <- app_assoc.
Qed.

(** X26.  [NewClient] drops the error of [url.Parse] on a base URL that is
    not empty, and the command goes on with a client whose base URL is
    nil: at the first page whose file can be read, [Generate] dereferences
    it and the program panics.  Pages whose file cannot be read are passed
    before that. *)
Theorem generateAll_unparsed_url_panics apiBaseURL apiAuth outDir prompt
    unread page rest (st : genState) parseErr :
  apiAuth <> EmptyString ->
  apiBaseURL <> EmptyString ->
  urlParse apiBaseURL = inl parseErr ->
  (forall w, Forall (fun p => exists w' err,
                         ReadFile (filePath p) w = (w', inl err)) unread) ->
  (forall w, exists w' fb, ReadFile (filePath page) w = (w', inr fb)) ->
  (forall req w, Marshalled (exchange req w).2 = None) ->
  generateAll apiBaseURL apiAuth false outDir prompt (unread ++ page :: rest) st
  = NilURL.
Proof.
  intros Ha Hb Hu Hunread Hread Hm. unfold cmd_generate.generateAll, NewClient.
  destruct (decide (apiAuth = EmptyString)) as [|_]; [done|].
  destruct (decide (apiBaseURL = EmptyString)) as [|_]; [done|].
  rewrite Hu. simpl. revert st.
  induction unread as [|p ps IH]; intros st; simpl.
  - unfold cmd_generate.generatePage. simpl.
    destruct (Hread (gworld st)) as (w1 & fb & ->). simpl.
    match goal with |- context [exchange ?r ?w] =>
      specialize (Hm r w); destruct (exchange r w) as [w2 t] end.
    simpl in Hm. unfold Client_Generate. simpl. by rewrite Hm.
  - assert (forall w, Forall (fun p => exists w' err,
                         ReadFile (filePath p) w = (w', inl err)) ps) as Hps.
    { intros w. specialize (Hunread w). by apply Forall_cons in Hunread as [_ ?]. }
    unfold cmd_generate.generatePage at 1. simpl.
    specialize (Hunread (gworld st)). apply Forall_cons in Hunread as [(w1 & err & ->) _].
    simpl. apply (IH Hps).
Qed.

End GenerateFacts.

Section GenerateRuns.

Import uniai uniai_client cmd cmd_generate spec props.

Lemma generateLoop_visits_every_slot_witness :
  exists st',
    generateLoop demoPlatform demoReadFile demoExchange demoUnmarshalError
      demoUnmarshalEvent id demoDone demoSummary demoClient false
      "out/report" "describe"
      [{| pageNum := 1; filePath := "out/page_1.jpg" |}; emptySlot] demoGenState
    = Finished st' /\
    saved (printed st') = [(1, "out/page_1.jpg"); (0, EmptyString)].
Proof.
  apply (generateLoop_visits_every_slot demoPlatform demoReadFile demoExchange
           demoUnmarshalError demoUnmarshalEvent id demoDone demoSummary
           demoClient "http://host" false "out/report" "describe"
           [{| pageNum := 1; filePath := "out/page_1.jpg" |}; emptySlot]
           demoGenState).
  reflexivity.
Defined.

Lemma generateLoop_routing_witness :
  exists new,
    [ (File "out/report/response/page_1.txt", "a");
      (File "out/report/response/page_1.txt", "b");
      (File "out/report/response/page_1.txt", newline);
      (File "out/report/response/page_1.txt", "done: b") ]
    = [] ++ new /\
    Forall (fun e => exists page,
                page ∈ [{| pageNum := 1; filePath := "out/page_1.jpg" |}; emptySlot]
                /\ e.1 = File (responseFilePath "out/report" (pageNum page))) new.
Proof.
  apply (generateLoop_routing demoPlatform demoReadFile demoExchange
           demoUnmarshalError demoUnmarshalEvent id demoDone demoSummary
           demoClient true "out/report" "describe"
           [{| pageNum := 1; filePath := "out/page_1.jpg" |}; emptySlot]
           demoGenState
           {| stderr := File "out/report/response/page_1.txt";
              written :=
                [ (File "out/report/response/page_1.txt", "a");
                  (File "out/report/response/page_1.txt", "b");
                  (File "out/report/response/page_1.txt", newline);
                  (File "out/report/response/page_1.txt", "done: b") ];
              summarized := [(File "out/report/response/page_1.txt", "b")];
              printed :=
                [ SavedTo 1 "out/page_1.jpg"; UserPrompt "describe";
                  SystemPrompt systemPrompt; ResponseFollows;
                  ResponseWrittenToFile; SavedTo 0 EmptyString;
                  FailedToReadFile 0 (errorString "no such file") ];
              stdout := [newline];
              gworld := ["out/report/response/page_1.txt"] |}).
  reflexivity.
Defined.

Lemma Generate_accumulates_deltas_witness :
  exists st',
    Client_Generate demoUnmarshalError demoUnmarshalEvent demoClient
      (delivered (demoWire 200 (bufio.ndjson ["a"; "b"])))
      (funcResp (O := list string) id demoDone demoSummary) demoGenState
    = Finished (st', ["a"; "b"], None) /\
    written st'
    = [(Terminal, "a"); (Terminal, "b"); (Terminal, newline);
       (Terminal, "done: b")] /\
    summarized st' = [(Terminal, "b")] /\
    stderr st' = Terminal /\ printed st' = [].
Proof.
  apply (Generate_accumulates_deltas demoUnmarshalError demoUnmarshalEvent
           id demoDone demoSummary demoClient "http://host"
           (demoWire 200 (bufio.ndjson ["a"; "b"]))
           {| Code := 200; Reason := "status"; Bytes := bufio.ndjson ["a"; "b"] |}
           ["a"; "b"] ["a"; "b"] demoGenState).
  - reflexivity.
  - repeat split.
  - unfold StatusBadRequest. simpl. lia.
  - reflexivity.
  - repeat constructor; unfold maxBufferSize, KiloByte, Byte; simpl; lia.
  - repeat constructor.
Defined.

Lemma generateAll_finishes_witness :
  exists st',
    generateAll demoPlatform demoReadFile demoExchange demoUnmarshalError
      demoUnmarshalEvent id demoDone demoSummary demoParse tt
      EmptyString "user:pass" true "out/report" "describe" demoSlots demoGenState
    = Finished st' /\
    saved (printed st') = [(1, "out/page_1.jpg"); (0, EmptyString)].
Proof.
  apply (generateAll_finishes demoPlatform demoReadFile demoExchange
           demoUnmarshalError demoUnmarshalEvent id demoDone demoSummary
           demoParse tt EmptyString "user:pass" EmptyString true "out/report"
           "describe" demoSlots demoGenState).
  - discriminate.
  - reflexivity.
Defined.

Lemma generateAll_unparsed_url_panics_witness :
  generateAll demoPlatform demoReadFile demoExchange demoUnmarshalError
    demoUnmarshalEvent id demoDone demoSummary demoParse tt
    "http://my host" "user:pass" false "out/report" "describe"
    ([emptySlot] ++ {| pageNum := 1; filePath := "out/page_1.jpg" |} :: [emptySlot])
    demoGenState
  = NilURL.
Proof.
  apply (generateAll_unparsed_url_panics demoPlatform demoReadFile demoExchange
           demoUnmarshalError demoUnmarshalEvent id demoDone demoSummary
           demoParse tt "http://my host" "user:pass" "out/report" "describe"
           [emptySlot] {| pageNum := 1; filePath := "out/page_1.jpg" |}
           [emptySlot] demoGenState (errorString "invalid character in URL")).
  - discriminate.
  - discriminate.
  - reflexivity.
  - intros w. apply Forall_singleton.
    exists w, (errorString "no such file"). reflexivity.
  - intros w. exists w, "out/page_1.jpg". reflexivity.
  - intros req w. reflexivity.
Defined.

End GenerateRuns.

Section RenderFacts.

Import strconv strings cli spec.

Context {O Page Image : Type} (platform : Platform O Page Image).

(** X29.  When [RenderPdfPage] returns an error the path beside it is
    empty.  On a nil page nothing was called and the error is the one for
    a nil page.  Otherwise the error is the one [device.Render] returned,
    as it is; or the render went through and [os.Create] on
    [outputDir/page_N.jpg] returned an error, which comes back behind
    failed to create output file; or both went through and
    [jpeg.Encode] on that file and the rendered image returned an error,
    which comes back behind failed to encode image.  The world is left as
    the last of these calls left it. *)
Theorem RenderPdfPage_error pageNumber page dir (w w' : O) out err :
  RenderPdfPage platform pageNumber page dir w = (w', (out, Some err)) ->
  out = EmptyString /\
  match page with
  | None => w' = w /\ err = errorString "page is nil"
  | Some pg =>
      deviceRender platform pg w = (w', inl err) \/
      (exists w1 img cause,
          deviceRender platform pg w = (w1, inr img) /\
          osCreate platform (pagePath dir pageNumber) w1 = (w', Some cause) /\
          err = wrapError "failed to create output file: " cause) \/
      (exists w1 img w2 cause,
          deviceRender platform pg w = (w1, inr img) /\
          osCreate platform (pagePath dir pageNumber) w1 = (w2, None) /\
          jpegEncode platform (pagePath dir pageNumber) img w2
          = (w', Some cause) /\
          err = wrapError "failed to encode image: " cause)
  end.
Proof.
  unfold RenderPdfPage, pagePath. destruct page as [pg|].
  - destruct (deviceRender platform pg w) as [w1 [e|img]]; simpl.
    { intros [= <- <- <-]. by split; [|left]. }
    destruct (osCreate platform _ w1) as [w2 [e|]] eqn:Hc.
    { intros [= <- <- <-]. split; [done|]. right. left. by exists w1, img, e. }
    destruct (jpegEncode platform _ img w2) as [w3 [e|]] eqn:He; [|done].
    intros [= <- <- <-]. split; [done|]. right. right.
    by exists w1, img, w2, e.
  - by intros [= <- <- <-].
Qed.

End RenderFacts.

Section MoreRuns.

Import strconv strings cli spec.


Lemma RenderPdfPage_error_witness :
  (EmptyString = EmptyString /\
   ([] : list string) = [] /\
   errorString "page is nil" = errorString "page is nil") /\
  (EmptyString = EmptyString /\
   (deviceRender fullDisk 1 []
    = (["out/page_1.jpg"], inl (wrapError "failed to encode image: "
                                  (errorString "no space left on device"))) \/
    (exists w1 img cause,
        deviceRender fullDisk 1 [] = (w1, inr img) /\
        osCreate fullDisk (pagePath "out" 1) w1
        = (["out/page_1.jpg"], Some cause) /\
        wrapError "failed to encode image: "
          (errorString "no space left on device")
        = wrapError "failed to create output file: " cause) \/
    (exists w1 img w2 cause,
        deviceRender fullDisk 1 [] = (w1, inr img) /\
        osCreate fullDisk (pagePath "out" 1) w1 = (w2, None) /\
        jpegEncode fullDisk (pagePath "out" 1) img w2
        = (["out/page_1.jpg"], Some cause) /\
        wrapError "failed to encode image: "
          (errorString "no space left on device")
        = wrapError "failed to encode image: " cause))).
Proof.
  split.
  - apply (RenderPdfPage_error demoPlatform 1 None "out" [] [] EmptyString
             (errorString "page is nil")).
    reflexivity.
  - apply (RenderPdfPage_error fullDisk 1 (Some 1) "out" [] ["out/page_1.jpg"]
             EmptyString
             (wrapError "failed to encode image: "
                (errorString "no space left on device"))).
    reflexivity.
Defined.

End MoreRuns.
